(** * rich.markdown: the Markdown renderer of [src/rich/markdown.py]

    A shallow embedding of the element classes, of [MarkdownContext] and of
    the node walker [Markdown.__console__], and the properties of the
    specification proved over it.

    Conventions of the embedding.
    - A Python [str] holding text is a list of Unicode code points ([str]);
      node kinds and style names, which are ASCII identifiers, are [string].
    - A Python exception is a [Raise] result; segments yielded before an
      exception are not kept.
    - Python lists used as stacks ([Stack], [StyleStack]) keep their top at
      the head of the Rocq list.
    - The [print] calls of the source write to standard output only and are
      left out. *)

From Stdlib Require Import List String Ascii ZArith NArith Bool Lia.
From Stdlib Require Import DecimalString.
From Stdlib Require DecimalPos DecimalZ.
Import ListNotations.

Local Open Scope Z_scope.
Local Open Scope string_scope.
Local Open Scope list_scope.

Set Implicit Arguments.
Set Warnings "-register-all".

(** ** Python values *)

(** Text is a sequence of code points. *)
Definition str := list N.

(** An ASCII literal as text. *)
Definition lit (s : string) : str :=
  map N_of_ascii (list_ascii_of_string s).

(** The newline, the space, the bullet U+2022 and the box-drawing rule
    character U+2500. *)
Definition NEWLINE : N := 10%N.
Definition SPACE : N := 32%N.
Definition BULLET : N := 8226%N.
Definition RULE : N := 9472%N.

(** Python's [len]. *)
Definition len (s : str) : Z := Z.of_nat (List.length s).

(** The characters [str.rstrip()] removes: Python's Unicode whitespace. *)
Definition is_space (c : N) : bool :=
  ((9 <=? c) && (c <=? 13) || (28 <=? c) && (c <=? 32)
   || (c =? 133) || (c =? 160) || (c =? 5760)
   || (8192 <=? c) && (c <=? 8202)
   || (c =? 8232) || (c =? 8233) || (c =? 8239) || (c =? 8287)
   || (c =? 12288))%N.

Fixpoint lstrip (s : str) : str :=
  match s with
  | c :: s' => if is_space c then lstrip s' else s
  | [] => []
  end.

Definition rstrip (s : str) : str := rev (lstrip (rev s)).

(** Truth value of a string: the empty string is false. *)
Definition truthy (s : str) : bool :=
  match s with [] => false | _ => true end.

(** ** Exceptions *)

Inductive PyErr : Type :=
| IndexError | AttributeError | TypeError | OverflowError | MemoryError.

Inductive result (A : Type) : Type :=
| Ok (a : A)
| Raise (e : PyErr).

Arguments Ok {A} a.
Arguments Raise {A} e.

Definition bind {A B} (m : result A) (k : A -> result B) : result B :=
  match m with
  | Ok a => k a
  | Raise e => Raise e
  end.

Notation "x <- m ;; k" := (bind m (fun x => k))
  (at level 61, m at next level, right associativity).
Notation "' p <- m ;; k" := (bind m (fun x => match x with p => k end))
  (at level 61, p pattern, m at next level, right associativity).

(** Each element of a list in turn; the first exception stops the loop. *)
Fixpoint mapM {A B} (f : A -> result B) (l : list A) : result (list B) :=
  match l with
  | [] => Ok []
  | a :: l' => b <- f a ;; bs <- mapM f l' ;; Ok (b :: bs)
  end.

(** ** Repeating a string *)

(** The counts a sequence takes: those of a machine index, from
    [-sys.maxsize - 1] to [sys.maxsize]. *)
Definition INDEX_MIN : Z := - 2 ^ 63.
Definition INDEX_MAX : Z := 2 ^ 63 - 1.

(** [c * n] for a one-character string [c].  A count that is no machine
    index raises [OverflowError]; a count below one gives the empty string;
    any other count gives [n] copies of the character when the interpreter
    has the memory for them, which [allocates n] tells, and raises
    [MemoryError] when it has not. *)
Definition str_mul (allocates : Z -> bool) (c : N) (n : Z) : result str :=
  if ((n <? INDEX_MIN) || (INDEX_MAX <? n))%Z then Raise OverflowError
  else if (n <? 1)%Z then Ok []
  else if allocates n then Ok (repeat c (Z.to_nat n))
  else Raise MemoryError.

(** ** The input: nodes of the parsed document *)

(** What the walker reads of a commonmark node.  [literal] is the node's
    literal text, the absent literal ([None]) of a node being the empty
    string: the walker tests it for truth only, except on text nodes,
    whose literal is always a string.  [level] is read for headings only. *)
Record Node : Type := mkNode {
  t : string;
  is_container : bool;
  literal : str;
  level : Z
}.

(** The document tree behind the nodes. *)
Inductive Tree : Type :=
| Leaf (kind : string) (text : str)
| Container (kind : string) (lvl : Z) (children : list Tree).

(** Modelled from the spec: commonmark's [Node.walker] is not in src.  It
    yields a container node twice, entering and leaving, with the events
    of its children in between, and a leaf once, entering. *)
Fixpoint walk (tr : Tree) : list (Node * bool) :=
  match tr with
  | Leaf k s => [(mkNode k false s 0, true)]
  | Container k l cs =>
      (mkNode k true [] l, true)
        :: flat_map walk cs ++ [(mkNode k true [] l, false)]
  end.

Definition walker (forest : list Tree) : list (Node * bool) :=
  flat_map walk forest.

(** ** Console options *)

(** Modelled from the spec: [ConsoleOptions] is not in src; the renderer
    reads [max_width] and derives options of a reduced width with
    [with_width]. *)
Record ConsoleOptions : Type := mkOptions { max_width : Z }.

Definition with_width (o : ConsoleOptions) (width : Z) : ConsoleOptions :=
  mkOptions width.

(** ** Values that carry styles *)

Section Types.

(** The styles of the console, opaque to the renderer. *)
Variable Style : Type.

(** A segment: text and, optionally, a style. *)
Record Segment : Type := mkSegment {
  seg_text : str;
  seg_style : option Style
}.

(** Modelled from the spec: [Text] is not in src.  A text has a base
    style, the runs appended to it with their styles, in order, and a
    justification that is unset until assigned. *)
Record Text : Type := mkText {
  text_style : Style;
  runs : list (str * Style);
  justify : option string
}.

Definition new_Text (style : Style) : Text := mkText style [] None.

Definition Text_append (tx : Text) (s : str) (style : Style) : Text :=
  mkText (text_style tx) (runs tx ++ [(s, style)]) (justify tx).

Definition set_justify (tx : Text) (j : string) : Text :=
  mkText (text_style tx) (runs tx) (Some j).

(** The border constant of [rich.panel] the renderer uses. *)
Inductive Border : Type := DOUBLE_BORDER.

(** Modelled from the spec: [Panel] is not in src; a panel is a bordered
    box around its content, built from the content, a border and the name
    of a style. *)
Record Panel : Type := mkPanel {
  panel_content : Text;
  panel_border : Border;
  panel_style : string
}.

(** What [__console__] yields: segments and renderables. *)
Inductive RenderItem : Type :=
| RSegment (s : Segment)
| RText (tx : Text)
| RPanel (p : Panel).

(** ** Elements *)

(** The classes registered in [Markdown.elements], and the fallback. *)
Inductive ElementClass : Type :=
| CUnknownElement | CParagraph | CHeading | CCodeBlock | CBlockQuote
| CHorizontalRule | CListElement | CListItem.

(** An instance of an element class with its attributes.  An attribute
    that [on_enter] assigns ([style], [text]) is [None] until then. *)
Inductive MarkdownElement : Type :=
| UnknownElement
| Paragraph (style : option Style) (text : option Text)
| Heading (level : Z) (text : option Text)
| CodeBlock (style : option Style) (text : option Text)
| BlockQuote (elements : list MarkdownElement)
| HorizontalRule
| ListElement (items : list MarkdownElement)
| ListItem (style : option Style) (text : option Text)
           (elements : list MarkdownElement).

Definition class_of (e : MarkdownElement) : ElementClass :=
  match e with
  | UnknownElement => CUnknownElement
  | Paragraph _ _ => CParagraph
  | Heading _ _ => CHeading
  | CodeBlock _ _ => CCodeBlock
  | BlockQuote _ => CBlockQuote
  | HorizontalRule => CHorizontalRule
  | ListElement _ => CListElement
  | ListItem _ _ _ => CListItem
  end.

End Types.

Arguments mkSegment {Style} seg_text seg_style.
Arguments mkText {Style} text_style runs justify.
Arguments mkPanel {Style} panel_content panel_border panel_style.
Arguments RSegment {Style} s.
Arguments RText {Style} tx.
Arguments RPanel {Style} p.
Arguments Paragraph {Style} style text.
Arguments Heading {Style} level text.
Arguments CodeBlock {Style} style text.
Arguments ListItem {Style} style text elements.
Arguments UnknownElement {Style}.
Arguments HorizontalRule {Style}.
Arguments BlockQuote {Style} elements.
Arguments ListElement {Style} items.

(** ** A console to run the renderer on *)

(** A small console: a style is the list of the registered names layered
    in it; the registry knows [none] and every name that starts with
    [markdown.]; a text renders as its runs, a panel within brackets, and
    [render_lines] gives one line per renderable. *)
Module Demo.

Definition Style : Type := list string.

Definition get_style (name : string) : option Style :=
  if name =? "none" then Some []
  else if String.prefix "markdown." name then Some [name]
  else None.

Definition current_style : Style := [].

(** Memory for strings of up to a million characters. *)
Definition allocates (n : Z) : bool := (n <=? 1000000)%Z.

Definition combine (outer inner : Style) : Style := outer ++ inner.

Definition render_text (o : ConsoleOptions) (tx : Text Style)
  : list (Segment Style) :=
  map (fun r => mkSegment (fst r) (Some (text_style tx ++ snd r))) (runs tx).

Definition render_panel (o : ConsoleOptions) (p : Panel Style)
  : list (Segment Style) :=
  mkSegment (lit "[") None
    :: render_text o (panel_content p) ++ [mkSegment (lit "]") None].

Definition render_line (o : ConsoleOptions) (e : MarkdownElement Style)
  : list (Segment Style) :=
  match e with
  | Paragraph _ (Some tx) | Heading _ (Some tx) | CodeBlock _ (Some tx) =>
      render_text o tx
  | _ => []
  end.

Definition render_lines (els : list (MarkdownElement Style))
    (o : ConsoleOptions) (style : Style) : list (list (Segment Style)) :=
  map (render_line o) els.

(** Inputs: options, a paragraph that is open and has been entered, and
    a forest of inline spans. *)
Definition o20 : ConsoleOptions := mkOptions 20.

Definition open_paragraph : MarkdownElement Style :=
  Paragraph (Some ["markdown.paragraph"])
    (Some (mkText ["markdown.paragraph"] [] None)).

Definition spans : list Tree :=
  [Container "emph" 0
     [Leaf "text" (lit "x"); Container "strong" 0 [Leaf "text" (lit "y")]];
   Leaf "code" (lit "z")].

(** A paragraph that holds a link, and the document of that paragraph. *)
Definition link : Tree := Container "link" 0 [Leaf "text" (lit "here")].

Definition link_document : Tree :=
  Container "document" 0 [Container "paragraph" 0 [link]].

(** The spans of [hello *world*] with a soft break and a code span. *)
Definition hello_world : list Tree :=
  [Leaf "text" (lit "hello ");
   Container "emph" 0 [Leaf "text" (lit "world")];
   Leaf "softbreak" [];
   Leaf "code" (lit "f")].

End Demo.

Section Markdown.

(** ** The console: what the renderer is given *)

(** Styles, the theme registry [console.get_style] (a name has a style or
    none), the style the console starts in, and the layering of one style
    over another. *)
Variable Style : Type.
Variable get_style : string -> option Style.
Variable console_current_style : Style.
Variable combine : Style -> Style -> Style.

Local Abbreviation Segment := (Segment Style).
Local Abbreviation Text := (Text Style).
Local Abbreviation Panel := (Panel Style).
Local Abbreviation RenderItem := (RenderItem Style).
Local Abbreviation MarkdownElement := (MarkdownElement Style).

(** The external renderers of the console: of a text, of a panel, and
    [console.render_lines], which lays renderables out as lines. *)
Variable render_text : ConsoleOptions -> Text -> list Segment.
Variable render_panel : ConsoleOptions -> Panel -> list Segment.
Variable render_lines :
  list MarkdownElement -> ConsoleOptions -> Style -> list (list Segment).

(** The interpreter's memory: whether a string of that many characters
    can be allocated. *)
Variable allocates : Z -> bool.

(** [new_line]: false for the horizontal rule only. *)
Definition new_line (e : MarkdownElement) : bool :=
  match e with
  | HorizontalRule => false
  | _ => true
  end.

(** [Markdown.elements.get]. *)
Definition elements_get (node_type : string) : option ElementClass :=
  if node_type =? "paragraph" then Some CParagraph
  else if node_type =? "heading" then Some CHeading
  else if node_type =? "code_block" then Some CCodeBlock
  else if node_type =? "block_quote" then Some CBlockQuote
  else if node_type =? "thematic_break" then Some CHorizontalRule
  else if node_type =? "list" then Some CListElement
  else if node_type =? "item" then Some CListItem
  else None.

(** [self.elements.get(node_type) or UnknownElement]. *)
Definition element_class (node_type : string) : ElementClass :=
  match elements_get node_type with
  | Some c => c
  | None => CUnknownElement
  end.

(** [cls.create(node)]. *)
Definition create (cls : ElementClass) (node : Node) : MarkdownElement :=
  match cls with
  | CUnknownElement => UnknownElement
  | CParagraph => Paragraph None None
  | CHeading => Heading (level node) None
  | CCodeBlock => CodeBlock None None
  | CBlockQuote => BlockQuote []
  | CHorizontalRule => HorizontalRule
  | CListElement => ListElement []
  | CListItem => ListItem None None []
  end.

(** [Markdown.inlines]. *)
Definition inlines (node_type : string) : bool :=
  (node_type =? "emph") || (node_type =? "strong") || (node_type =? "code").

(** ** MarkdownContext *)

(** Modelled from the spec: [StyleStack] is not in src.  It is created on
    a default style and holds the styles entered since; its current style
    layers them over the default, outer to inner. *)
Record StyleStack : Type := mkStyleStack {
  default_style : Style;
  entered : list Style
}.

Definition StyleStack_current (ss : StyleStack) : Style :=
  fold_right (fun s acc => combine acc s) (default_style ss) (entered ss).

Definition StyleStack_push (ss : StyleStack) (s : Style) : StyleStack :=
  mkStyleStack (default_style ss) (s :: entered ss).

Definition StyleStack_pop (ss : StyleStack) : result (StyleStack * Style) :=
  match entered ss with
  | s :: rest => Ok (mkStyleStack (default_style ss) rest, s)
  | [] => Raise IndexError
  end.

(** The context: the options, the style stack and the element stack.
    Modelled from the spec: [Stack] of [._stack] is not in src; it is a
    list with [push], [pop] and [top], the last two raising when it is
    empty. *)
Record MarkdownContext : Type := mkContext {
  options : ConsoleOptions;
  style_stack : StyleStack;
  stack : list MarkdownElement
}.

Definition MarkdownContext_init (o : ConsoleOptions) : MarkdownContext :=
  mkContext o (mkStyleStack console_current_style []) [].

Definition current_style (ctx : MarkdownContext) : Style :=
  StyleStack_current (style_stack ctx).

Definition with_style_stack (ctx : MarkdownContext) (ss : StyleStack) :=
  mkContext (options ctx) ss (stack ctx).

Definition with_stack (ctx : MarkdownContext) (st : list MarkdownElement) :=
  mkContext (options ctx) (style_stack ctx) st.

(** [get_style(style_name) or get_style("none")]. *)
Definition style_or_none (style_name : string) : option Style :=
  match get_style style_name with
  | Some s => Some s
  | None => get_style "none"
  end.

(** [enter_style]: the context after the push and the style returned.
    [StyleStack.push] takes a style; when neither lookup gives one the
    call is outside its contract and is an exception here. *)
Definition enter_style (ctx : MarkdownContext) (style_name : string)
  : result (MarkdownContext * Style) :=
  match style_or_none style_name with
  | Some style =>
      let ctx' := with_style_stack ctx (StyleStack_push (style_stack ctx) style) in
      Ok (ctx', current_style ctx')
  | None => Raise TypeError
  end.

(** [leave_style]. *)
Definition leave_style (ctx : MarkdownContext)
  : result (MarkdownContext * Style) :=
  '(ss, style) <- StyleStack_pop (style_stack ctx) ;;
  Ok (with_style_stack ctx ss, style).

(** [Stack.push], [Stack.pop], and the assignment to the object on top
    (elements are mutated in place while they are on the stack). *)
Definition Stack_push (ctx : MarkdownContext) (e : MarkdownElement) :=
  with_stack ctx (e :: stack ctx).

Definition Stack_pop (ctx : MarkdownContext)
  : result (MarkdownContext * MarkdownElement) :=
  match stack ctx with
  | e :: rest => Ok (with_stack ctx rest, e)
  | [] => Raise IndexError
  end.

Definition set_top (ctx : MarkdownContext) (e : MarkdownElement) :=
  with_stack ctx (e :: tl (stack ctx)).

(** ** The methods of the element classes *)

(** [f"markdown.h{level}"]. *)
Definition heading_style_name (level : Z) : string :=
  ("markdown.h" ++ NilZero.string_of_int (Z.to_int level))%string.

(** [TextElement.on_enter] for the style name of the class. *)
Definition TextElement_on_enter (ctx : MarkdownContext) (style_name : string)
  : result (MarkdownContext * Style * Text) :=
  '(ctx', style) <- enter_style ctx style_name ;;
  Ok (ctx', style, new_Text (current_style ctx')).

(** [on_enter]: the context and the element after the call. *)
Definition on_enter (ctx : MarkdownContext) (e : MarkdownElement)
  : result (MarkdownContext * MarkdownElement) :=
  match e with
  | UnknownElement | HorizontalRule | ListElement _ => Ok (ctx, e)
  | Paragraph _ _ =>
      '(ctx', style, tx) <- TextElement_on_enter ctx "markdown.paragraph" ;;
      Ok (ctx', Paragraph (Some style) (Some tx))
  | CodeBlock _ _ =>
      '(ctx', style, tx) <- TextElement_on_enter ctx "markdown.code_block" ;;
      Ok (ctx', CodeBlock (Some style) (Some tx))
  | ListItem _ _ els =>
      '(ctx', style, tx) <- TextElement_on_enter ctx "markdown.item" ;;
      Ok (ctx', ListItem (Some style) (Some tx) els)
  | Heading l _ =>
      let tx := new_Text (current_style ctx) in
      '(ctx', _) <- enter_style ctx (heading_style_name l) ;;
      Ok (ctx', Heading l (Some tx))
  | BlockQuote _ =>
      '(ctx', _) <- enter_style ctx "markdown.block_quote" ;;
      Ok (ctx', e)
  end.

(** [self.text.append(text, context.current_style)]; the attribute
    [text] may be missing. *)
Definition TextElement_on_text (ctx : MarkdownContext) (text : option Text)
    (s : str) : result (option Text) :=
  match text with
  | Some tx => Ok (Some (Text_append tx s (current_style ctx)))
  | None => Raise AttributeError
  end.

(** [on_text]: the element after the call.  A block quote inherits
    [TextElement.on_text] and never has a [text]. *)
Definition on_text (ctx : MarkdownContext) (e : MarkdownElement) (s : str)
  : result MarkdownElement :=
  match e with
  | UnknownElement | HorizontalRule | ListElement _ => Ok e
  | Paragraph st tx =>
      tx' <- TextElement_on_text ctx tx s ;; Ok (Paragraph st tx')
  | Heading l tx =>
      tx' <- TextElement_on_text ctx tx s ;; Ok (Heading l tx')
  | CodeBlock st tx =>
      tx' <- TextElement_on_text ctx tx s ;; Ok (CodeBlock st tx')
  | ListItem st tx els =>
      tx' <- TextElement_on_text ctx tx s ;; Ok (ListItem st tx' els)
  | BlockQuote _ => Raise AttributeError
  end.

(** [on_leave]: the context after the call. *)
Definition on_leave (ctx : MarkdownContext) (e : MarkdownElement)
  : result MarkdownContext :=
  match e with
  | UnknownElement | HorizontalRule | ListElement _ => Ok ctx
  | _ => '(ctx', _) <- leave_style ctx ;; Ok ctx'
  end.

(** [on_child_close]: the parent after the call and the answer. *)
Definition on_child_close (ctx : MarkdownContext)
    (parent child : MarkdownElement) : MarkdownElement * bool :=
  match parent with
  | BlockQuote els => (BlockQuote (els ++ [child]), false)
  | ListElement its => (ListElement (its ++ [child]), false)
  | ListItem st tx els => (ListItem st tx (els ++ [child]), false)
  | _ => (parent, true)
  end.

(** ** Rendering *)

Definition segment_nl : Segment := mkSegment [NEWLINE] None.

(** [HorizontalRule.__console__]. *)
Definition HorizontalRule_console (o : ConsoleOptions)
  : result (list RenderItem) :=
  let style := get_style "markdown.hr" in
  line <- str_mul allocates RULE (max_width o) ;;
  Ok [RSegment (mkSegment (line ++ [NEWLINE]) style)].

(** [Heading.__console__] on its text. *)
Definition Heading_console (level : Z) (tx : Text) : list RenderItem :=
  let text := set_justify tx "center" in
  if (level =? 1)%Z
  then [RPanel (mkPanel text DOUBLE_BORDER "markdown.h1.border")]
  else [RText text].

(** The body of the loop of [ListItem.render_bullet]; [" " * 3] is a
    constant, three spaces. *)
Definition bullet_line (index : nat) (line : list Segment) : list Segment :=
  (if (0 <? index)%nat
   then mkSegment [SPACE; SPACE; SPACE] None
   else mkSegment [SPACE; BULLET; SPACE] None)
    :: line ++ [segment_nl].

Fixpoint bullet_lines (index : nat) (lines : list (list Segment))
  : list Segment :=
  match lines with
  | [] => []
  | line :: rest => bullet_line index line ++ bullet_lines (S index) rest
  end.

(** [ListItem.render_bullet]; only a list item has the method, and its
    [style] is assigned by [on_enter]. *)
Definition render_bullet (item : MarkdownElement) (o : ConsoleOptions)
  : result (list Segment) :=
  match item with
  | ListItem (Some style) _ els =>
      let render_options := with_width o (max_width o - 3) in
      let lines := render_lines els render_options style in
      Ok (bullet_lines 0 lines)
  | _ => Raise AttributeError
  end.

Definition yield_text (text : option Text) : result (list RenderItem) :=
  match text with
  | Some tx => Ok [RText tx]
  | None => Raise AttributeError
  end.

(** [__console__] of an element: what it yields. *)
Fixpoint console_ (e : MarkdownElement) (o : ConsoleOptions)
  : result (list RenderItem) :=
  match e with
  | UnknownElement => Ok []
  | Paragraph _ tx | CodeBlock _ tx | ListItem _ tx _ => yield_text tx
  | Heading l (Some tx) => Ok (Heading_console l tx)
  | Heading _ None => Raise AttributeError
  | BlockQuote els =>
      yielded <- mapM (fun element => console_ element o) els ;;
      Ok (List.concat yielded)
  | HorizontalRule => HorizontalRule_console o
  | ListElement its =>
      yielded <- mapM (fun item => render_bullet item o) its ;;
      Ok (map RSegment (List.concat yielded))
  end.

(** Modelled from the spec: [Console.render] is not in src.  It produces
    the segments of a renderable: the segments its [__console__] yields
    as they are, and the renderables it yields rendered in their turn. *)
Definition render_item (o : ConsoleOptions) (it : RenderItem) : list Segment :=
  match it with
  | RSegment s => [s]
  | RText tx => render_text o tx
  | RPanel p => render_panel o p
  end.

Definition console_render (e : MarkdownElement) (o : ConsoleOptions)
  : result (list Segment) :=
  yielded <- console_ e o ;;
  Ok (flat_map (render_item o) yielded).

(** ** The walker: [Markdown.__console__] *)

(** The state of the loop: the context and the local [new_line]. *)
Record Walk : Type := mkWalk {
  context : MarkdownContext;
  pending_new_line : bool
}.

(** [context.on_text]: to the element on top of the stack. *)
Definition context_on_text (ctx : MarkdownContext) (s : str)
  : result MarkdownContext :=
  match stack ctx with
  | top :: _ => top' <- on_text ctx top s ;; Ok (set_top ctx top')
  | [] => Raise IndexError
  end.

(** [if new_line: yield Segment("\n")]. *)
Definition separator (pending : bool) : list Segment :=
  if pending then [segment_nl] else [].

(** The branch of an inline span. *)
Definition step_inline (ctx : MarkdownContext) (node : Node) (entering : bool)
  : result MarkdownContext :=
  let style_name := ("markdown." ++ t node)%string in
  if is_container node then
    if entering
    then '(ctx', _) <- enter_style ctx style_name ;; Ok ctx'
    else '(ctx', _) <- leave_style ctx ;; Ok ctx'
  else
    '(ctx1, _) <- enter_style ctx style_name ;;
    ctx2 <- (if truthy (literal node)
             then context_on_text ctx1 (literal node)
             else Ok ctx1) ;;
    '(ctx3, _) <- leave_style ctx2 ;;
    Ok ctx3.

(** A container of another kind, entering. *)
Definition step_enter (ctx : MarkdownContext) (node : Node)
  : result MarkdownContext :=
  let element := create (element_class (t node)) node in
  let ctx1 := Stack_push ctx element in
  '(ctx2, element') <- on_enter ctx1 element ;;
  Ok (set_top ctx2 element').

(** A container of another kind, leaving. *)
Definition step_leave (w : Walk) : result (Walk * list Segment) :=
  '(ctx1, element) <- Stack_pop (context w) ;;
  match stack ctx1 with
  | top :: _ =>
      let '(top', flush) := on_child_close ctx1 top element in
      let ctx2 := set_top ctx1 top' in
      if flush then
        segs <- console_render element (options ctx2) ;;
        ctx3 <- on_leave ctx2 element ;;
        Ok (mkWalk ctx3 (new_line element),
            separator (pending_new_line w) ++ segs)
      else
        ctx3 <- on_leave ctx2 element ;;
        Ok (mkWalk ctx3 (new_line element), [])
  | [] =>
      ctx2 <- on_leave ctx1 element ;;
      segs <- console_render element (options ctx2) ;;
      Ok (mkWalk ctx2 (new_line element), segs)
  end.

(** A leaf of another kind. *)
Definition step_leaf (w : Walk) (node : Node) : result (Walk * list Segment) :=
  let element := create (element_class (t node)) node in
  let ctx1 := Stack_push (context w) element in
  '(ctx2, element1) <- on_enter ctx1 element ;;
  element2 <- (if truthy (literal node)
               then on_text ctx2 element1 (rstrip (literal node))
               else Ok element1) ;;
  '(ctx3, _) <- Stack_pop (set_top ctx2 element2) ;;
  segs <- console_render element2 (options ctx3) ;;
  ctx4 <- on_leave ctx3 element2 ;;
  Ok (mkWalk ctx4 (new_line element2),
      separator (pending_new_line w) ++ segs).

(** One turn of the loop: the state after it and the segments yielded. *)
Definition step (w : Walk) (ev : Node * bool) : result (Walk * list Segment) :=
  let '(current, entering) := ev in
  let node_type := t current in
  if node_type =? "text" then
    ctx <- context_on_text (context w) (literal current) ;;
    Ok (mkWalk ctx (pending_new_line w), [])
  else if node_type =? "softbreak" then
    if entering then
      ctx <- context_on_text (context w) [NEWLINE] ;;
      Ok (mkWalk ctx (pending_new_line w), [])
    else Ok (w, [])
  else if inlines node_type then
    ctx <- step_inline (context w) current entering ;;
    Ok (mkWalk ctx (pending_new_line w), [])
  else if is_container current then
    if entering then
      ctx <- step_enter (context w) current ;;
      Ok (mkWalk ctx (pending_new_line w), [])
    else step_leave w
  else step_leaf w current.

(** The loop over the events. *)
Fixpoint run (events : list (Node * bool)) (w : Walk)
  : result (Walk * list Segment) :=
  match events with
  | [] => Ok (w, [])
  | ev :: rest =>
      '(w1, out1) <- step w ev ;;
      '(w2, out2) <- run rest w1 ;;
      Ok (w2, out1 ++ out2)
  end.

Definition Walk_init (o : ConsoleOptions) : Walk :=
  mkWalk (MarkdownContext_init o) false.

(** [Markdown.__console__] on the parsed document: the segments yielded. *)
Definition Markdown_console (parsed : Tree) (o : ConsoleOptions)
  : result (list Segment) :=
  '(_, out) <- run (walk parsed) (Walk_init o) ;; Ok out.

(** ** Vocabulary of the properties *)

(** The events on which the walker closes an element: the leaving of a
    container and the visit of a leaf, of a kind that is neither text,
    nor a soft break, nor an inline span. *)
Definition closes (ev : Node * bool) : bool :=
  let '(node, entering) := ev in
  negb (t node =? "text") && negb (t node =? "softbreak")
  && negb (inlines (t node))
  && (negb (is_container node) || negb entering).

(** A node kind that the walker hands to an element class. *)
Definition element_kind (k : string) : bool :=
  negb (k =? "text") && negb (k =? "softbreak") && negb (inlines k).

(** Two element stacks with the same open elements: equal below the top,
    whose object is the same (its attributes may have been assigned). *)
Definition same_open (s s' : list MarkdownElement) : Prop :=
  match s, s' with
  | [], [] => True
  | e :: r, e' :: r' => class_of e = class_of e' /\ r = r'
  | _, _ => False
  end.

(** The classes whose [on_enter] enters a style and whose [on_leave]
    leaves it. *)
Definition styled (c : ElementClass) : bool :=
  match c with
  | CUnknownElement | CHorizontalRule | CListElement => false
  | _ => true
  end.

(** A context with the options, the style stack and the open elements of
    another. *)
Definition framed (ctx ctx' : MarkdownContext) : Prop :=
  options ctx' = options ctx
  /\ style_stack ctx' = style_stack ctx
  /\ same_open (stack ctx) (stack ctx').

(** An element that takes text: its [on_text] does not raise. *)
Definition takes_text (e : MarkdownElement) : bool :=
  match e with
  | UnknownElement | HorizontalRule | ListElement _ => true
  | Paragraph _ tx | Heading _ tx | CodeBlock _ tx | ListItem _ tx _ =>
      match tx with Some _ => true | None => false end
  | BlockQuote _ => false
  end.

Definition top_takes_text (s : list MarkdownElement) : bool :=
  match s with
  | top :: _ => takes_text top
  | [] => false
  end.

(** The trees of inline spans: emphasis, strong and code, as containers
    of such trees or as leaves, and the text and soft breaks in them. *)
Fixpoint inline_tree (tr : Tree) : bool :=
  match tr with
  | Leaf k _ => (k =? "text") || (k =? "softbreak") || inlines k
  | Container k _ cs => inlines k && forallb inline_tree cs
  end.

(** A width at which the line of a rule can be made: a machine index,
    and one the interpreter has the memory for. *)
Definition fits (width : Z) : bool :=
  ((INDEX_MIN <=? width) && (width <=? INDEX_MAX)
   && ((width <? 1) || allocates width))%Z.

(** An element whose rendering does not raise at such a width: its text is
    assigned, the elements a block quote holds are such, and a list holds
    list items whose style is assigned. *)
Definition is_some {A} (x : option A) : bool :=
  match x with Some _ => true | None => false end.

Definition entered_item (e : MarkdownElement) : bool :=
  match e with
  | ListItem (Some _) _ _ => true
  | _ => false
  end.

Fixpoint good (e : MarkdownElement) : bool :=
  match e with
  | UnknownElement | HorizontalRule => true
  | Paragraph _ tx | Heading _ tx | CodeBlock _ tx => is_some tx
  | ListItem st tx _ => is_some st && is_some tx
  | BlockQuote els => forallb good els
  | ListElement its => forallb entered_item its
  end.

(** The trees of the shape the parser gives: text, soft breaks and the
    literal of inline spans only where an element takes text ([text_ok]:
    under an element that is not a block quote), the containers of a list
    ([in_list]) items only, and no literal on a block quote. *)
Fixpoint shaped (text_ok in_list : bool) (tr : Tree) : bool :=
  match tr with
  | Leaf k s =>
      if (k =? "text") || (k =? "softbreak") then text_ok
      else if inlines k then text_ok || negb (truthy s)
      else negb (k =? "block_quote") || negb (truthy s)
  | Container k _ cs =>
      if inlines k then forallb (shaped text_ok in_list) cs
      else element_kind k
           && (negb in_list || (k =? "item"))
           && forallb (shaped (negb (k =? "block_quote")) (k =? "list")) cs
  end.

(** An element stack on which the events of such trees raise nothing. *)
Definition ready (text_ok in_list : bool) (s : list MarkdownElement) : Prop :=
  forallb good s = true
  /\ (text_ok = true -> top_takes_text s = true)
  /\ (in_list = false ->
      forall top rest, s = top :: rest -> class_of top <> CListElement).

(** The walker gets across the events of a tree of that shape, from any
    such stack and at such a width, and leaves such a stack. *)
Definition gets_across (tr : Tree) : Prop :=
  forall text_ok in_list w,
    shaped text_ok in_list tr = true ->
    ready text_ok in_list (stack (context w)) ->
    fits (max_width (options (context w))) = true ->
    exists w' out,
      run (walk tr) w = Ok (w', out)
      /\ forallb good (stack (context w')) = true
      /\ (top_takes_text (stack (context w)) = true ->
          top_takes_text (stack (context w')) = true).

(** The events the walker handles without an element class. *)
Definition inline_event (ev : Node * bool) : bool :=
  (t (fst ev) =? "text") || (t (fst ev) =? "softbreak")
  || inlines (t (fst ev)).

(** A paragraph of one text node, and the document of the scenario: a
    block quote of two paragraphs, then a paragraph. *)
Definition paragraph_of (s : str) : Tree :=
  Container "paragraph" 0 [Leaf "text" s].

Definition quote_then_paragraph (a b c : str) : Tree :=
  Container "document" 0
    [Container "block_quote" 0 [paragraph_of a; paragraph_of b];
     paragraph_of c].

(** The style a name resolves to in a registry whose [none] is [none]. *)
Definition resolved (none : Style) (style_name : string) : Style :=
  match get_style style_name with
  | Some s => s
  | None => none
  end.

(** The prefix and the lines of a rendered list item. *)
Definition bullet_marker : Segment := mkSegment [SPACE; BULLET; SPACE] None.
Definition bullet_indent : Segment := mkSegment [SPACE; SPACE; SPACE] None.

(** The classes that hold on to the children that close under them, and
    what an element has collected. *)
Definition absorbs (c : ElementClass) : bool :=
  match c with
  | CBlockQuote | CListElement | CListItem => true
  | _ => false
  end.

Definition collected (e : MarkdownElement) : list MarkdownElement :=
  match e with
  | BlockQuote els | ListItem _ _ els => els
  | ListElement its => its
  | _ => []
  end.

(** The bullet form of a list item that has its style, as
    [render_bullet] gives it. *)
Definition bullet_of (o : ConsoleOptions) (item : MarkdownElement)
  : list Segment :=
  match item with
  | ListItem (Some style) _ els =>
      bullet_lines 0 (render_lines els (with_width o (max_width o - 3)) style)
  | _ => []
  end.

(** An element with runs added at the end of its text, if it has one. *)
Definition add_runs (e : MarkdownElement) (rs : list (str * Style))
  : MarkdownElement :=
  let add tx := mkText (text_style tx) (runs tx ++ rs) (justify tx) in
  match e with
  | Paragraph st (Some tx) => Paragraph st (Some (add tx))
  | Heading l (Some tx) => Heading l (Some (add tx))
  | CodeBlock st (Some tx) => CodeBlock st (Some (add tx))
  | ListItem st (Some tx) els => ListItem st (Some (add tx)) els
  | _ => e
  end.

(** The runs that the events of a tree of inline spans write, read off
    the tree: a text and a soft break in the current style, the literal
    of a leaf span and what a container span holds in the style of the
    span layered over the current one. *)
Fixpoint span_runs (none cur : Style) (tr : Tree) : list (str * Style) :=
  match tr with
  | Leaf k s =>
      if (k =? "text")%string then [(s, cur)]
      else if (k =? "softbreak")%string then [([NEWLINE], cur)]
      else if truthy s
           then [(s, combine cur (resolved none ("markdown." ++ k)%string))]
           else []
  | Container k _ cs =>
      flat_map
        (span_runs none (combine cur (resolved none ("markdown." ++ k)%string)))
        cs
  end.

(** What the events of a tree of inline spans do to a state whose top
    element takes text. *)
Definition writes_runs (none : Style) (tr : Tree) : Prop :=
  forall w top rest,
    stack (context w) = top :: rest ->
    takes_text top = true ->
    exists w',
      run (walk tr) w = Ok (w', [])
      /\ stack (context w')
         = add_runs top (span_runs none (current_style (context w)) tr)
             :: rest
      /\ style_stack (context w') = style_stack (context w)
      /\ options (context w') = options (context w)
      /\ pending_new_line w' = pending_new_line w.


(** The document of one heading that holds one text. *)
Definition heading_document (l : Z) (s : str) : Tree :=
  Container "document" 0 [Container "heading" l [Leaf "text" s]].

(** A list item of one paragraph, the document of one list of such
    items, and the element the walker builds for such an item when the
    current style is [cur]. *)
Definition item_of (s : str) : Tree :=
  Container "item" 0 [paragraph_of s].

Definition list_document (ss : list str) : Tree :=
  Container "document" 0 [Container "list" 0 (map item_of ss)].

Definition item_element (none cur : Style) (s : str) : MarkdownElement :=
  let item_style := combine cur (resolved none "markdown.item") in
  let style := combine item_style (resolved none "markdown.paragraph") in
  ListItem (Some item_style) (Some (new_Text item_style))
    [Paragraph (Some style) (Some (mkText style [(s, style)] None))].

(** The document of one block quote whose children are paragraphs of one
    text each, and the element the walker builds for such a paragraph
    when the current style is [cur]. *)
Definition quote_document (ss : list str) : Tree :=
  Container "document" 0 [Container "block_quote" 0 (map paragraph_of ss)].

Definition paragraph_text (none cur : Style) (s : str) : Text :=
  let style := combine cur (resolved none "markdown.paragraph") in
  mkText style [(s, style)] None.

Definition paragraph_element (none cur : Style) (s : str) : MarkdownElement :=
  Paragraph (Some (combine cur (resolved none "markdown.paragraph")))
    (Some (paragraph_text none cur s)).

(** ** Properties *)

Lemma bind_Ok {A B} (m : result A) (k : A -> result B) (b : B) :
  bind m k = Ok b -> exists a, m = Ok a /\ k a = Ok b.
Proof.
  destruct m as [a|e]; simpl; intros H; [eauto | discriminate].
Qed.

Lemma run_app (evs1 evs2 : list (Node * bool)) (w : Walk) :
  run (evs1 ++ evs2) w =
  ('(w1, out1) <- run evs1 w ;;
   '(w2, out2) <- run evs2 w1 ;;
   Ok (w2, out1 ++ out2)).
Proof.
  revert w; induction evs1 as [|ev evs1 IH]; intros w; simpl.
  - destruct (run evs2 w) as [[w2 out2]|e]; reflexivity.
  - destruct (step w ev) as [[w1 out1]|e]; simpl; [|reflexivity].
    rewrite IH.
    destruct (run evs1 w1) as [[w2 out2]|e]; simpl; [|reflexivity].
    destruct (run evs2 w2) as [[w3 out3]|e]; simpl; [|reflexivity].
    now rewrite app_assoc.
Qed.

Lemma enter_style_keeps (ctx ctx' : MarkdownContext) (name : string) (s : Style) :
  enter_style ctx name = Ok (ctx', s) ->
  stack ctx' = stack ctx /\ options ctx' = options ctx
  /\ exists style, style_stack ctx' = StyleStack_push (style_stack ctx) style.
Proof.
  unfold enter_style.
  destruct (style_or_none name) as [style|]; [|discriminate].
  intros H; injection H as <- _; simpl; eauto.
Qed.

Lemma leave_style_keeps (ctx ctx' : MarkdownContext) (s : Style) :
  leave_style ctx = Ok (ctx', s) ->
  stack ctx' = stack ctx /\ options ctx' = options ctx
  /\ style_stack ctx = StyleStack_push (style_stack ctx') s.
Proof.
  unfold leave_style, StyleStack_pop, StyleStack_push.
  destruct ctx as [o [d en] st]; simpl.
  destruct en as [|s0 rest]; simpl; [discriminate|].
  intros H; injection H as <- <-; simpl; auto.
Qed.

Lemma leave_after_push (ctx : MarkdownContext) (ss : StyleStack) (s : Style) :
  style_stack ctx = StyleStack_push ss s ->
  exists ctx',
    leave_style ctx = Ok (ctx', s)
    /\ stack ctx' = stack ctx /\ options ctx' = options ctx
    /\ style_stack ctx' = ss.
Proof.
  intros H. unfold leave_style, StyleStack_pop. rewrite H; simpl.
  eexists; split; [reflexivity|]. simpl. destruct ss; auto.
Qed.

Lemma on_text_class (ctx : MarkdownContext) (e e' : MarkdownElement) (s : str) :
  on_text ctx e s = Ok e' -> class_of e' = class_of e.
Proof.
  destruct e as [|st tx|l tx|st tx|els| |its|st tx els]; simpl;
    try (destruct tx; simpl); intros H; try discriminate;
    injection H as <-; reflexivity.
Qed.

Lemma context_on_text_keeps (ctx ctx' : MarkdownContext) (s : str) :
  context_on_text ctx s = Ok ctx' ->
  options ctx' = options ctx /\ style_stack ctx' = style_stack ctx
  /\ same_open (stack ctx) (stack ctx').
Proof.
  unfold context_on_text.
  destruct (stack ctx) as [|top rest] eqn:Hs; [discriminate|].
  intros H; apply bind_Ok in H as (top' & Htop & H).
  injection H as <-. apply on_text_class in Htop.
  unfold set_top; rewrite Hs; simpl; auto.
Qed.

(** Until an element is closed the walker yields nothing and keeps its
    [new_line]. *)
Lemma step_keeps_pending (w w' : Walk) (ev : Node * bool) (out : list Segment) :
  closes ev = false ->
  step w ev = Ok (w', out) ->
  pending_new_line w' = pending_new_line w /\ out = [].
Proof.
  destruct ev as [node entering]; unfold closes, step.
  destruct (t node =? "text")%string.
  - intros _ H; apply bind_Ok in H as (ctx & _ & H).
    injection H as <- <-; auto.
  - destruct (t node =? "softbreak")%string.
    + intros _ H. destruct entering.
      * apply bind_Ok in H as (ctx & _ & H). injection H as <- <-; auto.
      * injection H as <- <-; auto.
    + destruct (inlines (t node)).
      * intros _ H; apply bind_Ok in H as (ctx & _ & H).
        injection H as <- <-; auto.
      * simpl. destruct (is_container node), entering; simpl;
          try discriminate.
        intros _ H; apply bind_Ok in H as (ctx & _ & H).
        injection H as <- <-; auto.
Qed.

Lemma run_keeps_pending (evs : list (Node * bool)) (w w' : Walk)
    (out : list Segment) :
  Forall (fun ev => closes ev = false) evs ->
  run evs w = Ok (w', out) ->
  pending_new_line w' = pending_new_line w /\ out = [].
Proof.
  intros Hall; revert w w' out.
  induction Hall as [|ev evs Hev Hall IH]; intros w w' out; simpl.
  - intros H; injection H as <- <-; auto.
  - intros H. apply bind_Ok in H as ([w1 out1] & H1 & H).
    apply bind_Ok in H as ([w2 out2] & H2 & H).
    injection H as <- <-.
    destruct (step_keeps_pending _ _ Hev H1) as [E1 ->].
    destruct (IH _ _ _ H2) as [E2 ->].
    split; [congruence | reflexivity].
Qed.

(** Induction on elements, through the lists of the elements they hold. *)
Lemma MarkdownElement_nested_ind (P : MarkdownElement -> Prop) :
  P UnknownElement ->
  (forall st tx, P (Paragraph st tx)) ->
  (forall l tx, P (Heading l tx)) ->
  (forall st tx, P (CodeBlock st tx)) ->
  (forall els, Forall P els -> P (BlockQuote els)) ->
  P HorizontalRule ->
  (forall its, Forall P its -> P (ListElement its)) ->
  (forall st tx els, Forall P els -> P (ListItem st tx els)) ->
  forall e, P e.
Proof.
  intros HU HP HH HC HB HR HL HI.
  fix IH 1. intros e.
  destruct e as [|st tx|l tx|st tx|els| |its|st tx els].
  - exact HU.
  - apply HP.
  - apply HH.
  - apply HC.
  - apply HB. induction els as [|x els IHels]; constructor;
      [apply IH | exact IHels].
  - exact HR.
  - apply HL. induction its as [|x its IHits]; constructor;
      [apply IH | exact IHits].
  - apply HI. induction els as [|x els IHels]; constructor;
      [apply IH | exact IHels].
Qed.

Lemma mapM_Ok_Forall {A B} (f g : A -> result B) (l : list A) :
  Forall (fun a => (exists b, f a = Ok b) -> exists b, g a = Ok b) l ->
  (exists bs, mapM f l = Ok bs) -> exists bs, mapM g l = Ok bs.
Proof.
  induction 1 as [|a l Ha Hl IH]; simpl; [eauto|].
  intros (bs & H).
  apply bind_Ok in H as (b & Hb & H).
  apply bind_Ok in H as (bs' & Hbs & _).
  destruct Ha as (b2 & ->); [eauto|].
  destruct IH as (bs2 & ->); [eauto|]. simpl; eauto.
Qed.

Lemma bullet_lines_indented (n : nat) (lines : list (list Segment)) :
  bullet_lines (S n) lines =
  List.concat (map (fun line => bullet_indent :: line ++ [segment_nl]) lines).
Proof.
  revert n; induction lines as [|line rest IH]; intros n; simpl;
    [reflexivity|].
  now rewrite IH.
Qed.

Lemma str_mul_fits (c : N) (n : Z) :
  fits n = true -> str_mul allocates c n = Ok (repeat c (Z.to_nat n)).
Proof.
  unfold fits, str_mul. intros H.
  apply andb_prop in H as [H Halloc]. apply andb_prop in H as [Hlo Hhi].
  apply Z.leb_le in Hlo, Hhi.
  destruct (Z.ltb_spec n INDEX_MIN); [lia|].
  destruct (Z.ltb_spec INDEX_MAX n); [lia|]. simpl.
  destruct (Z.ltb_spec n 1).
  - replace (Z.to_nat n) with 0%nat by lia. reflexivity.
  - simpl in Halloc. now rewrite Halloc.
Qed.

Lemma str_mul_overflow (c : N) (n : Z) :
  n < INDEX_MIN \/ INDEX_MAX < n ->
  str_mul allocates c n = Raise OverflowError.
Proof.
  unfold str_mul. intros H.
  destruct (Z.ltb_spec n INDEX_MIN); [reflexivity|].
  destruct (Z.ltb_spec INDEX_MAX n); [reflexivity|lia].
Qed.

Lemma str_mul_Ok_fits (c : N) (n : Z) (s : str) :
  str_mul allocates c n = Ok s -> fits n = true.
Proof.
  unfold fits, str_mul.
  destruct (Z.ltb_spec n INDEX_MIN); [discriminate|].
  destruct (Z.ltb_spec INDEX_MAX n); [discriminate|]. simpl.
  destruct (Z.leb_spec INDEX_MIN n); [|lia].
  destruct (Z.leb_spec n INDEX_MAX); [|lia]. simpl.
  destruct (n <? 1)%Z; [reflexivity|].
  destruct (allocates n); [reflexivity|discriminate].
Qed.

Lemma rule_renders (o : ConsoleOptions) :
  fits (max_width o) = true ->
  console_render HorizontalRule o
  = Ok [mkSegment (repeat RULE (Z.to_nat (max_width o)) ++ [NEWLINE])
          (get_style "markdown.hr")].
Proof.
  intros H. unfold console_render; simpl. unfold HorizontalRule_console.
  now rewrite (str_mul_fits _ _ H).
Qed.

(** C9.  [enter_style] on any name, in a registry that has the style
    [none]: the name resolves to its own style or, unknown, to [none];
    that style is pushed on the style stack, and the call returns the
    current style of the stack after the push, which layers the pushed
    style over what was current. *)
Theorem enter_style_resolves_and_pushes
    (ctx : MarkdownContext) (style_name : string) (none : Style)
    (Hnone : get_style "none" = Some none) :
  let style := resolved none style_name in
  let ctx' :=
    with_style_stack ctx (StyleStack_push (style_stack ctx) style) in
  enter_style ctx style_name = Ok (ctx', current_style ctx')
  /\ (get_style style_name = None -> style = none)
  /\ (forall s, get_style style_name = Some s -> style = s)
  /\ entered (style_stack ctx') = style :: entered (style_stack ctx)
  /\ current_style ctx' = combine (current_style ctx) style
  /\ current_style ctx' =
     fold_right (fun s acc => combine acc s) (default_style (style_stack ctx))
       (style :: entered (style_stack ctx))
  /\ stack ctx' = stack ctx.
Proof.
  unfold enter_style, style_or_none, resolved.
  destruct (get_style style_name) as [s|] eqn:Hs; [|rewrite Hnone];
    simpl; repeat split; try reflexivity; try discriminate.
  intros s' H; now injection H.
Qed.

(** C3 (amended).  At a [max_width] that is a machine index and whose
    line the interpreter has the memory for, a horizontal rule renders
    exactly one segment, in the style [markdown.hr]: rule characters,
    [max_width] of them when [max_width] is not negative and none otherwise,
    then one newline.  At a [max_width] that is no machine index the
    rendering raises [OverflowError], and at no other width does it give a
    result.  The [new_line] of the rule is false: once the walker has
    yielded a rule its own [new_line] is off, and stays off with nothing
    yielded until the next element is closed, which is then not preceded
    by a blank line. *)
Theorem horizontal_rule_one_segment (o : ConsoleOptions) :
  let line (o : ConsoleOptions) := repeat RULE (Z.to_nat (max_width o)) in
  let rule (o : ConsoleOptions) :=
    mkSegment (line o ++ [NEWLINE]) (get_style "markdown.hr") in
  (fits (max_width o) = true ->
   str_mul allocates RULE (max_width o) = Ok (line o)
   /\ console_ HorizontalRule o = Ok [RSegment (rule o)]
   /\ console_render HorizontalRule o = Ok [rule o])
  /\ (max_width o < INDEX_MIN \/ INDEX_MAX < max_width o ->
      console_ HorizontalRule o = Raise OverflowError
      /\ console_render HorizontalRule o = Raise OverflowError)
  /\ (forall segs,
        console_render HorizontalRule o = Ok segs ->
        fits (max_width o) = true)
  /\ Forall (fun c => c = RULE) (line o)
  /\ len (line o) = Z.max 0 (max_width o)
  /\ new_line HorizontalRule = false
  /\ forall (w : Walk) (s : str) (l : Z),
       fits (max_width (options (context w))) = true ->
       exists w',
         step w (mkNode "thematic_break" false s l, true)
         = Ok (w', separator (pending_new_line w)
                     ++ [rule (options (context w))])
         /\ pending_new_line w' = false
         /\ forall evs w'' out,
              Forall (fun ev => closes ev = false) evs ->
              run evs w' = Ok (w'', out) ->
              out = [] /\ separator (pending_new_line w'') = [].
Proof.
  cbv zeta. split; [|split; [|split; [|split; [|split; [|split]]]]].
  - intros Hfits. split; [now apply str_mul_fits|].
    split; [|now apply rule_renders].
    simpl. unfold HorizontalRule_console.
    now rewrite (str_mul_fits _ _ Hfits).
  - intros Hout. unfold console_render; simpl. unfold HorizontalRule_console.
    rewrite (str_mul_overflow _ Hout). split; reflexivity.
  - intros segs. unfold console_render; simpl. unfold HorizontalRule_console.
    destruct (str_mul allocates RULE (max_width o)) as [body|e] eqn:Hmul;
      [|discriminate].
    intros _. exact (str_mul_Ok_fits _ _ Hmul).
  - apply Forall_forall. intros c Hc. now apply repeat_spec in Hc.
  - unfold len. rewrite repeat_length. lia.
  - reflexivity.
  - intros w s l Hfits.
    unfold step, step_leaf; simpl.
    destruct (truthy s); simpl; rewrite (rule_renders _ Hfits); simpl;
      (eexists; split; [reflexivity|]; split; [reflexivity|]);
      intros evs w'' out Hall Hrun;
      (eapply run_keeps_pending in Hrun; [|exact Hall]);
      destruct Hrun as [E ->];
      simpl in E; rewrite E; auto.
Qed.

(** C4.  A heading renders its text justified to the center: as a
    panel around that text, with the double border and the style
    [markdown.h1.border], exactly when its level is 1, and as the
    centered text itself at every other level.  The element of a heading
    node has the level of the node and, once entered, a text. *)
Theorem heading_panel_iff_level_one (l : Z) (tx : Text) (o : ConsoleOptions) :
  let text := set_justify tx "center" in
  let panel := mkPanel text DOUBLE_BORDER "markdown.h1.border" in
  justify text = Some "center"
  /\ runs text = runs tx /\ text_style text = text_style tx
  /\ (l = 1 ->
      console_ (Heading l (Some tx)) o = Ok [RPanel panel]
      /\ console_render (Heading l (Some tx)) o = Ok (render_panel o panel))
  /\ (l <> 1 ->
      console_ (Heading l (Some tx)) o = Ok [RText text]
      /\ console_render (Heading l (Some tx)) o = Ok (render_text o text))
  /\ ((exists p, console_ (Heading l (Some tx)) o = Ok [RPanel p]) <-> l = 1)
  /\ (forall ctx node ctx1 e1,
        on_enter ctx (create (element_class "heading") node) = Ok (ctx1, e1) ->
        e1 = Heading (level node) (Some (new_Text (current_style ctx)))).
Proof.
  simpl. unfold console_render; simpl. unfold Heading_console.
  repeat split; try reflexivity.
  - subst l; reflexivity.
  - subst l; simpl. now rewrite app_nil_r.
  - apply Z.eqb_neq in H. now rewrite H.
  - apply Z.eqb_neq in H. rewrite H; simpl. now rewrite app_nil_r.
  - intros (p & Hp). destruct (Z.eqb_spec l 1); [assumption|discriminate].
  - intros ->; simpl; eauto.
  - intros ctx node ctx1 e1 H.
    apply bind_Ok in H as ([c s] & _ & H). now injection H as _ <-.
Qed.

(** C5.  A list item, which collects every child that closes and has
    a style once entered, lays its collected children out with
    [render_lines] at the width [max_width - 3] and in its own style; the
    first line it yields starts with the three characters of the bullet
    marker, every later line with three spaces, and every line ends with
    a newline segment. *)
Theorem list_item_bullet_lines
    (style : Style) (tx : option Text) (els : list MarkdownElement)
    (o : ConsoleOptions) :
  let render_options := with_width o (max_width o - 3) in
  let lines := render_lines els render_options style in
  max_width render_options = max_width o - 3
  /\ render_bullet (ListItem (Some style) tx els) o
     = Ok match lines with
          | [] => []
          | first :: rest =>
              (bullet_marker :: first ++ [segment_nl])
                ++ List.concat
                     (map (fun line => bullet_indent :: line ++ [segment_nl])
                          rest)
          end
  /\ seg_text bullet_marker = [SPACE; BULLET; SPACE]
  /\ len (seg_text bullet_marker) = 3
  /\ seg_text bullet_indent = [SPACE; SPACE; SPACE]
  /\ len (seg_text bullet_indent) = 3
  /\ seg_text segment_nl = [NEWLINE]
  /\ (forall ctx child,
        on_child_close ctx (ListItem (Some style) tx els) child
        = (ListItem (Some style) tx (els ++ [child]), false))
  /\ (forall ctx node ctx1 e1,
        on_enter ctx (create (element_class "item") node) = Ok (ctx1, e1) ->
        exists style' tx', e1 = ListItem (Some style') (Some tx') []).
Proof.
  simpl. repeat split.
  - destruct (render_lines els (with_width o (max_width o - 3)) style)
      as [|first rest]; simpl; [reflexivity|].
    unfold bullet_line; simpl. now rewrite bullet_lines_indented.
  - intros ctx node ctx1 e1 H.
    apply bind_Ok in H as ([[c s] tx'] & _ & H). injection H as _ <-. eauto.
Qed.

(** *** The stacks across the events of a tree *)

Lemma same_open_refl (s : list MarkdownElement) : same_open s s.
Proof. destruct s; simpl; auto. Qed.

Lemma same_open_trans (s1 s2 s3 : list MarkdownElement) :
  same_open s1 s2 -> same_open s2 s3 -> same_open s1 s3.
Proof.
  destruct s1, s2, s3; simpl; intros H1 H2; try contradiction; auto.
  destruct H1 as [E1 ->], H2 as [E2 ->]; split; congruence.
Qed.

Lemma framed_refl (ctx : MarkdownContext) : framed ctx ctx.
Proof. repeat split; apply same_open_refl. Qed.

Lemma framed_trans (c1 c2 c3 : MarkdownContext) :
  framed c1 c2 -> framed c2 c3 -> framed c1 c3.
Proof.
  intros (O1 & S1 & E1) (O2 & S2 & E2); repeat split; try congruence.
  eapply same_open_trans; eassumption.
Qed.

Lemma StyleStack_push_inj (ss ss' : StyleStack) (s s' : Style) :
  StyleStack_push ss s = StyleStack_push ss' s' -> ss = ss' /\ s = s'.
Proof.
  destruct ss, ss'; unfold StyleStack_push; simpl.
  intros H; injection H as -> -> ->; auto.
Qed.

Lemma on_enter_spec (ctx ctx1 : MarkdownContext) (e e1 : MarkdownElement) :
  on_enter ctx e = Ok (ctx1, e1) ->
  class_of e1 = class_of e /\ stack ctx1 = stack ctx
  /\ options ctx1 = options ctx
  /\ if styled (class_of e)
     then exists s, style_stack ctx1 = StyleStack_push (style_stack ctx) s
     else style_stack ctx1 = style_stack ctx.
Proof.
  assert (Htext : forall name c s tx,
             TextElement_on_enter ctx name = Ok (c, s, tx) ->
             stack c = stack ctx /\ options c = options ctx
             /\ exists s, style_stack c = StyleStack_push (style_stack ctx) s).
  { unfold TextElement_on_enter. intros name c s tx H.
    apply bind_Ok in H as ([c' s'] & He & H). injection H as <- _ _.
    eapply enter_style_keeps; eassumption. }
  destruct e as [|st tx|l tx|st tx|els| |its|st tx els]; simpl; intros H.
  - injection H as <- <-; auto.
  - apply bind_Ok in H as ([[c s] tx'] & H1 & H). injection H as <- <-.
    apply Htext in H1 as (? & ? & ?); auto.
  - apply bind_Ok in H as ([c s] & H1 & H). injection H as <- <-.
    apply enter_style_keeps in H1 as (? & ? & ?); auto.
  - apply bind_Ok in H as ([[c s] tx'] & H1 & H). injection H as <- <-.
    apply Htext in H1 as (? & ? & ?); auto.
  - apply bind_Ok in H as ([c s] & H1 & H). injection H as <- <-.
    apply enter_style_keeps in H1 as (? & ? & ?); auto.
  - injection H as <- <-; auto.
  - injection H as <- <-; auto.
  - apply bind_Ok in H as ([[c s] tx'] & H1 & H). injection H as <- <-.
    apply Htext in H1 as (? & ? & ?); auto.
Qed.

Lemma on_leave_spec (ctx ctx' : MarkdownContext) (e : MarkdownElement) :
  on_leave ctx e = Ok ctx' ->
  stack ctx' = stack ctx /\ options ctx' = options ctx
  /\ if styled (class_of e)
     then exists s, style_stack ctx = StyleStack_push (style_stack ctx') s
     else style_stack ctx' = style_stack ctx.
Proof.
  destruct e as [|st tx|l tx|st tx|els| |its|st tx els]; simpl; intros H;
    try (injection H as <-; auto);
    apply bind_Ok in H as ([c s] & Hl & H); injection H as <-;
    apply leave_style_keeps in Hl as (? & ? & ?); eauto.
Qed.

Lemma on_child_close_class (ctx : MarkdownContext) (p c : MarkdownElement) :
  class_of (fst (on_child_close ctx p c)) = class_of p.
Proof. destruct p; reflexivity. Qed.

Lemma class_of_create (c : ElementClass) (node : Node) :
  class_of (create c node) = c.
Proof. destruct c; reflexivity. Qed.

(** What entering a container of an element kind does: one push, of the
    element created for the node, and the style of its class entered. *)
Lemma step_enter_spec (ctx ctx1 : MarkdownContext) (node : Node) :
  step_enter ctx node = Ok ctx1 ->
  exists e1,
    stack ctx1 = e1 :: stack ctx
    /\ class_of e1 = element_class (t node)
    /\ options ctx1 = options ctx
    /\ if styled (element_class (t node))
       then exists s, style_stack ctx1 = StyleStack_push (style_stack ctx) s
       else style_stack ctx1 = style_stack ctx.
Proof.
  unfold step_enter. intros H.
  apply bind_Ok in H as ([c e1] & He & H). injection H as <-.
  apply on_enter_spec in He as (Hc & Hs & Ho & Hst).
  rewrite class_of_create in Hc, Hst.
  exists e1; unfold set_top; rewrite Hs; simpl; auto.
Qed.

(** What leaving it does, when the element on top is the one of the
    node: one pop, of that element, and the style of its class left. *)
Lemma step_leave_spec (w w' : Walk) (out : list Segment)
    (e : MarkdownElement) (rest : list MarkdownElement) (ss : StyleStack) :
  stack (context w) = e :: rest ->
  (if styled (class_of e)
   then exists s, style_stack (context w) = StyleStack_push ss s
   else style_stack (context w) = ss) ->
  step_leave w = Ok (w', out) ->
  options (context w') = options (context w)
  /\ style_stack (context w') = ss
  /\ same_open rest (stack (context w'))
  /\ pending_new_line w' = new_line e.
Proof.
  intros Hs Hst. unfold step_leave, Stack_pop. rewrite Hs; simpl.
  assert (Hleave : forall c c',
             style_stack c = style_stack (context w) ->
             on_leave c e = Ok c' ->
             stack c' = stack c /\ options c' = options c
             /\ style_stack c' = ss).
  { intros c c' Hc Hl. apply on_leave_spec in Hl as (? & ? & Hl).
    rewrite Hc in Hl. destruct (styled (class_of e)).
    - destruct Hst as (s1 & Hst), Hl as (s2 & Hl). rewrite Hst in Hl.
      apply StyleStack_push_inj in Hl as [-> _]; auto.
    - repeat split; congruence. }
  destruct rest as [|top rest'].
  - intros H. apply bind_Ok in H as (c2 & Hl & H).
    apply bind_Ok in H as (segs & _ & H). injection H as <- <-.
    apply Hleave in Hl as (E1 & E2 & E3); [|reflexivity]. simpl in *.
    rewrite E1; auto.
  - pose proof (on_child_close_class (with_stack (context w) (top :: rest'))
                  top e) as Hcl.
    destruct (on_child_close _ top e) as [top' flush]; simpl in Hcl.
    destruct flush; intros H.
    + apply bind_Ok in H as (segs & _ & H).
      apply bind_Ok in H as (c3 & Hl & H). injection H as <- <-.
      apply Hleave in Hl as (E1 & E2 & E3); [|reflexivity]. simpl in *.
      rewrite E1; auto.
    + apply bind_Ok in H as (c3 & Hl & H). injection H as <- <-.
      apply Hleave in Hl as (E1 & E2 & E3); [|reflexivity]. simpl in *.
      rewrite E1; auto.
Qed.

Lemma step_leaf_framed (w w' : Walk) (node : Node) (out : list Segment) :
  step_leaf w node = Ok (w', out) -> framed (context w) (context w').
Proof.
  unfold step_leaf. intros H.
  apply bind_Ok in H as ([c2 e1] & He & H).
  apply bind_Ok in H as (e2 & Ht & H).
  assert (Hc : class_of e2 = class_of e1).
  { destruct (truthy (literal node)).
    - eapply on_text_class; eassumption.
    - now injection Ht as <-. }
  apply on_enter_spec in He as (Hc1 & Hs & Ho & Hst). simpl in Hs.
  unfold Stack_pop, set_top in H; simpl in H.
  apply bind_Ok in H as (segs & _ & H).
  apply bind_Ok in H as (c4 & Hl & H). injection H as <- _. simpl.
  apply on_leave_spec in Hl as (Hs4 & Ho4 & Hst4). simpl in *.
  rewrite Hs in Hs4; simpl in Hs4.
  rewrite Hc, Hc1 in Hst4.
  repeat split.
  - congruence.
  - destruct (styled (class_of _)).
    + destruct Hst as (s1 & Hst), Hst4 as (s2 & Hst4). rewrite Hst in Hst4.
      now apply StyleStack_push_inj in Hst4 as [-> _].
    + congruence.
  - rewrite Hs4. apply same_open_refl.
Qed.

Lemma step_inline_leaf_framed (ctx ctx' : MarkdownContext) (node : Node)
    (entering : bool) :
  is_container node = false ->
  step_inline ctx node entering = Ok ctx' -> framed ctx ctx'.
Proof.
  unfold step_inline. intros -> H.
  apply bind_Ok in H as ([c1 s1] & He & H).
  apply bind_Ok in H as (c2 & Ht & H).
  apply bind_Ok in H as ([c3 s3] & Hl & H). injection H as <-.
  apply enter_style_keeps in He as (Hs1 & Ho1 & s & Hst1).
  apply leave_style_keeps in Hl as (Hs3 & Ho3 & Hst3).
  assert (Hf : framed c1 c2).
  { destruct (truthy (literal node)).
    - apply context_on_text_keeps in Ht. exact Ht.
    - injection Ht as <-. apply framed_refl. }
  destruct Hf as (Ho2 & Hst2 & Hs2).
  repeat split.
  - congruence.
  - rewrite Hst2, Hst1 in Hst3.
    now apply StyleStack_push_inj in Hst3 as [-> _].
  - rewrite Hs3, <- Hs1. exact Hs2.
Qed.

Lemma Tree_nested_ind (P : Tree -> Prop) :
  (forall k s, P (Leaf k s)) ->
  (forall k l cs, Forall P cs -> P (Container k l cs)) ->
  forall tr, P tr.
Proof.
  intros HL HC. fix IH 1. intros [k s|k l cs].
  - apply HL.
  - apply HC. induction cs as [|c cs IHcs]; constructor;
      [apply IH | exact IHcs].
Qed.

Lemma run_single (ev : Node * bool) (w w' : Walk) (out : list Segment) :
  run [ev] w = Ok (w', out) <-> step w ev = Ok (w', out).
Proof.
  simpl. destruct (step w ev) as [[w1 o1]|e]; simpl;
    rewrite ?app_nil_r; split; intros H; exact H.
Qed.

(** The events of a container: its entering, the events of its
    children, its leaving. *)
Lemma run_container (k : string) (l : Z) (cs : list Tree) (w w' : Walk)
    (out : list Segment) :
  run (walk (Container k l cs)) w = Ok (w', out) ->
  exists w1 o1 w2 o2 o3,
    step w (mkNode k true [] l, true) = Ok (w1, o1)
    /\ run (walker cs) w1 = Ok (w2, o2)
    /\ step w2 (mkNode k true [] l, false) = Ok (w', o3)
    /\ out = o1 ++ o2 ++ o3.
Proof.
  cbn [walk run]. intros H.
  apply bind_Ok in H as ([w1 o1] & H1 & H).
  apply bind_Ok in H as ([w3 o23] & H23 & H). injection H as <- <-.
  rewrite run_app in H23.
  apply bind_Ok in H23 as ([w2 o2] & H2 & H).
  apply bind_Ok in H as ([w3' o3] & H3 & H). injection H as <- <-.
  apply run_single in H3.
  exists w1, o1, w2, o2, o3; auto.
Qed.

Lemma forest_framed (cs : list Tree) :
  Forall (fun tr => forall w w' out,
            run (walk tr) w = Ok (w', out) ->
            framed (context w) (context w')) cs ->
  forall w w' out,
    run (walker cs) w = Ok (w', out) -> framed (context w) (context w').
Proof.
  unfold walker. induction 1 as [|c cs Hc _ IH]; intros w w' out; simpl.
  - intros H; injection H as <- _. apply framed_refl.
  - rewrite run_app. intros H.
    apply bind_Ok in H as ([w1 o1] & H1 & H).
    apply bind_Ok in H as ([w2 o2] & H2 & H). injection H as <- _.
    eapply framed_trans; eauto.
Qed.

(** The events of a tree leave the style stack as it was and the same
    elements open. *)
Lemma walk_framed (tr : Tree) (w w' : Walk) (out : list Segment) :
  run (walk tr) w = Ok (w', out) -> framed (context w) (context w').
Proof.
  revert w w' out. induction tr as [k s|k l cs IH] using Tree_nested_ind;
    intros w w' out H.
  - apply run_single in H. unfold step in H; cbn [t is_container literal] in H.
    destruct (k =? "text")%string.
    { apply bind_Ok in H as (c & Hc & H). injection H as <- _.
      apply context_on_text_keeps in Hc. exact Hc. }
    destruct (k =? "softbreak")%string.
    { apply bind_Ok in H as (c & Hc & H). injection H as <- _.
      apply context_on_text_keeps in Hc. exact Hc. }
    destruct (inlines k).
    { apply bind_Ok in H as (c & Hc & H). injection H as <- _.
      eapply step_inline_leaf_framed; [|eassumption]. reflexivity. }
    eapply step_leaf_framed; eassumption.
  - apply run_container in H
      as (w1 & o1 & w2 & o2 & o3 & H1 & H2 & H3 & _).
    apply (forest_framed IH) in H2.
    unfold step in H1, H3; cbn [t is_container literal] in H1, H3.
    destruct (k =? "text")%string.
    { apply bind_Ok in H1 as (c1 & Hc1 & H1). injection H1 as <- _.
      apply bind_Ok in H3 as (c3 & Hc3 & H3). injection H3 as <- _.
      apply context_on_text_keeps in Hc1, Hc3.
      eapply framed_trans; [exact Hc1|].
      eapply framed_trans; [exact H2|exact Hc3]. }
    destruct (k =? "softbreak")%string.
    { apply bind_Ok in H1 as (c1 & Hc1 & H1). injection H1 as <- _.
      injection H3 as <- _.
      apply context_on_text_keeps in Hc1.
      eapply framed_trans; [exact Hc1|exact H2]. }
    destruct (inlines k).
    { apply bind_Ok in H1 as (c1 & Hc1 & H1). injection H1 as <- _.
      apply bind_Ok in H3 as (c3 & Hc3 & H3). injection H3 as <- _.
      unfold step_inline in Hc1, Hc3; cbn [is_container] in Hc1, Hc3.
      apply bind_Ok in Hc1 as ([c1' s1] & He & Hc1). injection Hc1 as <-.
      apply bind_Ok in Hc3 as ([c3' s3] & Hl & Hc3). injection Hc3 as <-.
      apply enter_style_keeps in He as (Hs1 & Ho1 & s & Hst1).
      apply leave_style_keeps in Hl as (Hs3 & Ho3 & Hst3).
      destruct H2 as (Ho2 & Hst2 & Hs2). simpl in *.
      repeat split.
      - congruence.
      - rewrite Hst2, Hst1 in Hst3.
        now apply StyleStack_push_inj in Hst3 as [-> _].
      - rewrite Hs3, <- Hs1. exact Hs2. }
    apply bind_Ok in H1 as (c1 & Hc1 & H1). injection H1 as <- _.
    apply step_enter_spec in Hc1 as (e1 & Hs1 & Hcl1 & Ho1 & Hst1).
    destruct H2 as (Ho2 & Hst2 & Hs2). simpl in *.
    rewrite Hs1 in Hs2.
    destruct (stack (context w2)) as [|e2 rest2] eqn:Hs2'; [contradiction|].
    destruct Hs2 as [Hcl2 <-].
    eapply step_leave_spec with (ss := style_stack (context w)) in H3;
      [|exact Hs2'|].
    + destruct H3 as (Ho3 & Hst3 & Hs3 & _).
      repeat split; [congruence|assumption|assumption].
    + rewrite <- Hcl2, Hcl1, Hst2. exact Hst1.
Qed.

Lemma walker_framed (forest : list Tree) (w w' : Walk) (out : list Segment) :
  run (walker forest) w = Ok (w', out) -> framed (context w) (context w').
Proof.
  apply forest_framed. apply Forall_forall. intros tr _.
  intros; eapply walk_framed; eassumption.
Qed.

Lemma enter_style_Ok (ctx : MarkdownContext) (style_name : string)
    (none : Style) :
  get_style "none" = Some none ->
  enter_style ctx style_name =
  Ok (with_style_stack ctx
        (StyleStack_push (style_stack ctx) (resolved none style_name)),
      combine (current_style ctx) (resolved none style_name)).
Proof.
  intros Hnone. unfold enter_style, style_or_none, resolved.
  destruct (get_style style_name); [|rewrite Hnone]; reflexivity.
Qed.

(** The walker run on given events, one [enter_style] after the other. *)
Ltac walk_through Hnone :=
  repeat (progress (unfold step, step_enter, step_leave, step_leaf,
                    step_inline, context_on_text, on_enter,
                    TextElement_on_enter, on_leave, leave_style,
                    console_render;
                    cbn -[enter_style resolved];
                    rewrite ?(enter_style_Ok _ _ Hnone))).

(** C1.  The document of a block quote of two paragraphs followed by
    a paragraph, in a registry that has the style [none].  The block quote
    answers false to every child and collects it; rendered, it gives
    the output of the first paragraph and then that of the second, with
    nothing in between; and the walker yields a blank-line segment, the
    output of the quote, one blank-line segment, and the output of the
    last paragraph. *)
Theorem block_quote_absorbs_paragraphs
    (a b c : str) (o : ConsoleOptions) (none : Style)
    (Hnone : get_style "none" = Some none) :
  let quote_style :=
    combine console_current_style (resolved none "markdown.block_quote") in
  let inner := combine quote_style (resolved none "markdown.paragraph") in
  let outer :=
    combine console_current_style (resolved none "markdown.paragraph") in
  let text_a := mkText inner [(a, inner)] None in
  let text_b := mkText inner [(b, inner)] None in
  let text_c := mkText outer [(c, outer)] None in
  let quote :=
    BlockQuote [Paragraph (Some inner) (Some text_a);
                Paragraph (Some inner) (Some text_b)] in
  (forall ctx els child,
      on_child_close ctx (BlockQuote els) child
      = (BlockQuote (els ++ [child]), false))
  /\ console_render quote o = Ok (render_text o text_a ++ render_text o text_b)
  /\ Markdown_console (quote_then_paragraph a b c) o
     = Ok ([segment_nl]
             ++ (render_text o text_a ++ render_text o text_b)
             ++ [segment_nl] ++ render_text o text_c).
Proof.
  intros quote_style inner outer text_a text_b text_c quote.
  split; [reflexivity|]. split.
  { unfold console_render; simpl. now rewrite app_nil_r. }
  subst quote text_a text_b text_c inner outer quote_style.
  unfold Markdown_console, quote_then_paragraph, paragraph_of, resolved.
  fold (resolved none "markdown.block_quote").
  fold (resolved none "markdown.paragraph").
  walk_through Hnone.
  rewrite ?app_nil_r; reflexivity.
Qed.

Lemma class_Unknown (e : MarkdownElement) :
  class_of e = CUnknownElement -> e = UnknownElement.
Proof. destruct e; simpl; intros H; try discriminate; reflexivity. Qed.

Lemma element_kind_step (node : Node) (entering : bool) (w : Walk) :
  element_kind (t node) = true ->
  step w (node, entering) =
  if is_container node then
    if entering then
      ctx <- step_enter (context w) node ;;
      Ok (mkWalk ctx (pending_new_line w), [])
    else step_leave w
  else step_leaf w node.
Proof.
  unfold element_kind, step. intros H.
  destruct (t node =? "text")%string; [discriminate|].
  destruct (t node =? "softbreak")%string; [discriminate|].
  destruct (inlines (t node)); [discriminate|]. reflexivity.
Qed.

(** The leaving of an element whose parent on the stack is of the
    unknown class: the element is rendered there and then. *)
Lemma step_leave_under_Unknown (w w' : Walk) (out : list Segment)
    (child : MarkdownElement) (rest : list MarkdownElement) :
  stack (context w) = child :: UnknownElement :: rest ->
  step_leave w = Ok (w', out) ->
  exists segs,
    console_render child (options (context w)) = Ok segs
    /\ out = separator (pending_new_line w) ++ segs
    /\ stack (context w') = UnknownElement :: rest
    /\ pending_new_line w' = new_line child.
Proof.
  intros Hs. unfold step_leave, Stack_pop. rewrite Hs; simpl. intros H.
  apply bind_Ok in H as (segs & Hr & H).
  apply bind_Ok in H as (c3 & Hl & H). injection H as <- <-.
  apply on_leave_spec in Hl as (E & _). simpl in *.
  exists segs; auto.
Qed.

(** C7.  A node of a kind with no registered class, which the
    walker hands to an element class, is given the unknown element: its
    hooks succeed and change nothing, it renders nothing, and no event
    of the node raises.  A leaf yields only the blank line that was
    pending; a container is pushed at its entering, takes text, and at
    its leaving, once the events of its children are through, is popped
    with at most the pending blank line yielded. *)
Theorem unknown_kind_is_no_error (node : Node) (w : Walk)
    (Hkind : elements_get (t node) = None)
    (Helem : element_kind (t node) = true) :
  create (element_class (t node)) node = UnknownElement
  /\ (forall ctx, on_enter ctx UnknownElement = Ok (ctx, UnknownElement))
  /\ (forall ctx s, on_text ctx UnknownElement s = Ok UnknownElement)
  /\ (forall ctx, on_leave ctx UnknownElement = Ok ctx)
  /\ (forall o, console_ UnknownElement o = Ok []
                /\ console_render UnknownElement o = Ok [])
  /\ (is_container node = false ->
      forall entering,
      exists w',
        step w (node, entering) = Ok (w', separator (pending_new_line w))
        /\ stack (context w') = stack (context w)
        /\ style_stack (context w') = style_stack (context w))
  /\ (is_container node = true ->
      exists w1,
        step w (node, true) = Ok (w1, [])
        /\ stack (context w1) = UnknownElement :: stack (context w)
        /\ style_stack (context w1) = style_stack (context w)
        /\ (forall s, exists ctx,
              context_on_text (context w1) s = Ok ctx
              /\ stack ctx = stack (context w1))
        /\ forall cs w2 out2,
             run (walker cs) w1 = Ok (w2, out2) ->
             exists w' out,
               step w2 (node, false) = Ok (w', out)
               /\ (out = [] \/ out = [segment_nl])
               /\ same_open (stack (context w)) (stack (context w'))
               /\ style_stack (context w') = style_stack (context w)).
Proof.
  assert (Hc : create (element_class (t node)) node = UnknownElement).
  { unfold element_class. now rewrite Hkind. }
  split; [exact Hc|].
  do 4 (split; [reflexivity || (intros; split; reflexivity)|]).
  split.
  - intros Hleaf entering. rewrite element_kind_step by assumption.
    rewrite Hleaf. unfold step_leaf. rewrite Hc. simpl.
    destruct (truthy (literal node)); simpl; rewrite app_nil_r;
      eexists; split; reflexivity || (split; reflexivity).
  - intros Hcont. rewrite element_kind_step by assumption.
    rewrite Hcont. unfold step_enter. rewrite Hc. cbn -[step].
    eexists; split; [reflexivity|]. cbn -[step].
    do 2 (split; [reflexivity|]). split.
    { intros s. unfold context_on_text; simpl.
      eexists; split; reflexivity. }
    intros cs w2 out2 Hrun.
    rewrite element_kind_step by assumption. rewrite Hcont.
    apply walker_framed in Hrun as (Ho & Hst & Hs). simpl in *.
    destruct (stack (context w2)) as [|e2 rest2] eqn:Hs2; [contradiction|].
    destruct Hs as [Hcl <-]. symmetry in Hcl.
    apply class_Unknown in Hcl as ->.
    unfold step_leave, Stack_pop. rewrite Hs2. simpl.
    destruct (stack (context w)) as [|top rest] eqn:Hsw; simpl.
    + eexists; eexists; split; [reflexivity|]. simpl; auto.
    + pose proof (on_child_close_class
                    (with_stack (context w2) (top :: rest))
                    top UnknownElement) as Hcl.
      destruct (on_child_close _ top UnknownElement) as [top' flush].
      simpl in Hcl. destruct flush; simpl.
      * eexists; eexists; split; [reflexivity|]. simpl.
        rewrite app_nil_r. split; [|auto].
        destruct (pending_new_line w2); simpl; auto.
      * eexists; eexists; split; [reflexivity|]. simpl; auto.
Qed.

Lemma walker_app (f1 f2 : list Tree) :
  walker (f1 ++ f2) = walker f1 ++ walker f2.
Proof. unfold walker. apply flat_map_app. Qed.

Lemma walker_cons (tr : Tree) (forest : list Tree) :
  walker (tr :: forest) = walk tr ++ walker forest.
Proof. reflexivity. Qed.

(** Where the top of the stack is the unknown element it stays so across
    the events of a forest. *)
Lemma Unknown_stays_on_top (forest : list Tree) (w w' : Walk)
    (out : list Segment) (rest : list MarkdownElement) :
  stack (context w) = UnknownElement :: rest ->
  run (walker forest) w = Ok (w', out) ->
  stack (context w') = UnknownElement :: rest
  /\ options (context w') = options (context w).
Proof.
  intros Hs Hrun. apply walker_framed in Hrun as (Ho & _ & Hso).
  rewrite Hs in Hso.
  destruct (stack (context w')) as [|e r]; [contradiction|].
  destruct Hso as [Hcl <-]. symmetry in Hcl.
  apply class_Unknown in Hcl as ->. auto.
Qed.

(** C10 (amended).  A container of a kind with no registered class,
    across whose events the walker gets.  Its element answers true to
    every child.  Everything yielded between its entering and its leaving
    is yielded by its children, one after the other in their order, and
    at its leaving at most the pending blank line is.  A child that is a
    container of an element kind is rendered when it leaves: after what
    its own events yielded come the blank line, if one was pending, and
    the segments of the element; the unknown element does not collect it.
    A child that is a leaf of an element kind is rendered at its visit.
    Text handed to the unknown element is taken and left out. *)
Theorem unknown_container_flushes_children
    (k : string) (l : Z) (cs : list Tree) (w w' : Walk) (out : list Segment)
    (Hkind : elements_get k = None)
    (Helem : element_kind k = true)
    (Hrun : run (walk (Container k l cs)) w = Ok (w', out)) :
  (forall ctx child,
      on_child_close ctx UnknownElement child = (UnknownElement, true))
  /\ exists w1 w2 out2 out3,
       step w (mkNode k true [] l, true) = Ok (w1, [])
       /\ stack (context w1) = UnknownElement :: stack (context w)
       /\ run (walker cs) w1 = Ok (w2, out2)
       /\ step w2 (mkNode k true [] l, false) = Ok (w', out3)
       /\ out = out2 ++ out3
       /\ (out3 = [] \/ out3 = [segment_nl])
       /\ (forall s, exists ctx,
             context_on_text (context w1) s = Ok ctx
             /\ stack ctx = stack (context w1)
             /\ style_stack ctx = style_stack (context w1))
       /\ forall before child after,
            cs = before ++ child :: after ->
            exists wa wb oa ob oc,
              run (walker before) w1 = Ok (wa, oa)
              /\ run (walk child) wa = Ok (wb, ob)
              /\ run (walker after) wb = Ok (w2, oc)
              /\ out2 = oa ++ ob ++ oc
              /\ stack (context wa) = UnknownElement :: stack (context w)
              /\ stack (context wb) = UnknownElement :: stack (context w)
              /\ match child with
                 | Container kc lc gcs =>
                     element_kind kc = true ->
                     exists w_in o_in element segs,
                       run ((mkNode kc true [] lc, true) :: walker gcs) wa
                       = Ok (w_in, o_in)
                       /\ stack (context w_in)
                          = element :: UnknownElement :: stack (context w)
                       /\ class_of element = element_class kc
                       /\ console_render element (options (context w))
                          = Ok segs
                       /\ ob = o_in ++ separator (pending_new_line w_in)
                                 ++ segs
                 | Leaf kc s =>
                     element_kind kc = true ->
                     exists element segs,
                       class_of element = element_class kc
                       /\ console_render element (options (context w))
                          = Ok segs
                       /\ ob = separator (pending_new_line wa) ++ segs
                 end.
Proof.
  split; [reflexivity|].
  apply run_container in Hrun
    as (w1 & o1 & w2 & o2 & o3 & H1 & H2 & H3 & ->).
  assert (Hnode : element_class k = CUnknownElement).
  { unfold element_class. now rewrite Hkind. }
  pose proof H1 as H1'. rewrite element_kind_step in H1' by exact Helem.
  cbn [is_container] in H1'.
  apply bind_Ok in H1' as (c1 & Hc1 & H1'). injection H1' as <- <-.
  unfold step_enter in Hc1; cbn [t] in Hc1. rewrite Hnode in Hc1.
  cbn in Hc1. injection Hc1 as <-.
  set (w1 := mkWalk _ _) in *.
  assert (Hs1 : stack (context w1) = UnknownElement :: stack (context w))
    by reflexivity.
  assert (Ho1 : options (context w1) = options (context w)) by reflexivity.
  destruct (@Unknown_stays_on_top _ _ _ _ _ Hs1 H2) as [Hs2 Ho2].
  exists w1, w2, o2, o3.
  do 5 (split; [assumption || reflexivity|]). split.
  { rewrite element_kind_step in H3 by exact Helem.
    cbn [is_container] in H3.
    unfold step_leave, Stack_pop in H3. rewrite Hs2 in H3. cbn in H3.
    destruct (stack (context w)) as [|top rest]; cbn in H3.
    - injection H3 as _ <-; auto.
    - destruct (on_child_close _ top UnknownElement) as [top' flush].
      destruct flush; cbn in H3; injection H3 as _ <-; [|auto].
      rewrite app_nil_r. destruct (pending_new_line w2); auto. }
  split.
  { intros s. unfold context_on_text. rewrite Hs1. cbn.
    eexists; split; [reflexivity|]. split; reflexivity. }
  intros before child after ->.
  rewrite walker_app, walker_cons, run_app in H2.
  apply bind_Ok in H2 as ([wa oa] & Ha & H2).
  apply bind_Ok in H2 as ([w2' obc] & Hbc & H2).
  rewrite run_app in Hbc.
  apply bind_Ok in Hbc as ([wb ob] & Hb & Hbc).
  apply bind_Ok in Hbc as ([w2'' oc] & Hc & Hbc).
  injection Hbc as <- <-. injection H2 as <- <-.
  destruct (@Unknown_stays_on_top _ _ _ _ _ Hs1 Ha) as [Hsa Hoa].
  assert (Hb' : run (walker [child]) wa = Ok (wb, ob)).
  { unfold walker; cbn [flat_map]. now rewrite app_nil_r. }
  destruct (@Unknown_stays_on_top _ _ _ _ _ Hsa Hb') as [Hsb Hob].
  exists wa, wb, oa, ob, oc.
  do 6 (split; [assumption || reflexivity|]).
  destruct child as [kc s|kc lc gcs]; intros Hkc.
  - apply run_single in Hb. rewrite element_kind_step in Hb by exact Hkc.
    cbn [is_container] in Hb. unfold step_leaf in Hb.
    apply bind_Ok in Hb as ([c2 e1] & He & Hb).
    apply bind_Ok in Hb as (e2 & Ht & Hb).
    unfold Stack_pop, set_top in Hb; cbn in Hb.
    apply bind_Ok in Hb as (segs & Hr & Hb).
    apply bind_Ok in Hb as (c4 & _ & Hb). injection Hb as _ <-.
    apply on_enter_spec in He as (Hce & _ & Hoe & _).
    rewrite class_of_create in Hce. cbn [t] in Hce. cbn in Hoe.
    exists e2, segs. split; [|split; [|reflexivity]].
    + rewrite <- Hce. destruct (truthy (literal _)).
      * eapply on_text_class; eassumption.
      * now injection Ht as <-.
    + rewrite <- Ho1, <- Hoa, <- Hoe. exact Hr.
  - apply run_container in Hb
      as (wi1 & oi1 & wi2 & oi2 & oi3 & Hi1 & Hi2 & Hi3 & ->).
    pose proof Hi1 as Hi1'.
    rewrite element_kind_step in Hi1' by exact Hkc.
    cbn [is_container] in Hi1'.
    apply bind_Ok in Hi1' as (ci & Hci & Hi1'). injection Hi1' as <- <-.
    apply step_enter_spec in Hci as (e1 & Hse & Hce & Hoe & _).
    cbn [t] in Hce.
    pose proof Hi2 as Hf. apply walker_framed in Hf as (Hoi & _ & Hsi).
    cbn [context] in Hsi, Hoi. rewrite Hse, Hsa in Hsi.
    destruct (stack (context wi2)) as [|e2 r2] eqn:Hs2i; [contradiction|].
    destruct Hsi as [Hcl <-].
    rewrite element_kind_step in Hi3 by exact Hkc.
    cbn [is_container] in Hi3.
    eapply step_leave_under_Unknown in Hi3 as (segs & Hr & -> & _);
      [|exact Hs2i].
    exists wi2, oi2, e2, segs.
    split; [|split; [exact Hs2i|split; [congruence|split; [|reflexivity]]]].
    + cbn [run]. rewrite Hi1. cbn. rewrite Hi2. reflexivity.
    + rewrite <- Ho1, <- Hoa, <- Hoe, <- Hoi. exact Hr.
Qed.

(** *** Inline spans *)

Lemma same_open_length (s s' : list MarkdownElement) :
  same_open s s' -> List.length s' = List.length s.
Proof.
  destruct s, s'; simpl; intros H; try contradiction; [reflexivity|].
  destruct H as [_ ->]; reflexivity.
Qed.

Lemma inlines_not_text (k : string) :
  inlines k = true ->
  (k =? "text")%string = false /\ (k =? "softbreak")%string = false.
Proof.
  unfold inlines.
  destruct (String.eqb_spec k "emph") as [->|_]; [auto|].
  destruct (String.eqb_spec k "strong") as [->|_]; [auto|].
  destruct (String.eqb_spec k "code") as [->|_]; [auto|discriminate].
Qed.

Lemma inline_event_not_closes (ev : Node * bool) :
  inline_event ev = true -> closes ev = false.
Proof.
  destruct ev as [node entering]; unfold inline_event, closes; simpl.
  destruct (t node =? "text")%string; [reflexivity|].
  destruct (t node =? "softbreak")%string; [reflexivity|].
  simpl. intros ->; reflexivity.
Qed.

Lemma step_inline_keeps_stack (ctx ctx' : MarkdownContext) (node : Node)
    (entering : bool) :
  step_inline ctx node entering = Ok ctx' ->
  same_open (stack ctx) (stack ctx').
Proof.
  unfold step_inline.
  destruct (is_container node) eqn:Hc.
  - destruct entering; intros H;
      apply bind_Ok in H as ([c s] & He & H); injection H as <-.
    + apply enter_style_keeps in He as (-> & _). apply same_open_refl.
    + apply leave_style_keeps in He as (-> & _). apply same_open_refl.
  - intros H.
    assert (Hf : framed ctx ctx').
    { eapply step_inline_leaf_framed with (entering := entering);
        [exact Hc|].
      unfold step_inline. rewrite Hc. exact H. }
    apply Hf.
Qed.

(** An event of an inline span, of text or of a soft break keeps the
    element stack. *)
Lemma inline_event_keeps_stack (ev : Node * bool) (w w' : Walk)
    (out : list Segment) :
  inline_event ev = true ->
  step w ev = Ok (w', out) ->
  same_open (stack (context w)) (stack (context w')).
Proof.
  destruct ev as [node entering]. unfold inline_event, step; simpl.
  destruct (t node =? "text")%string.
  { intros _ H. apply bind_Ok in H as (c & Hc & H). injection H as <- _.
    apply context_on_text_keeps in Hc. apply Hc. }
  destruct (t node =? "softbreak")%string.
  { intros _ H. destruct entering.
    - apply bind_Ok in H as (c & Hc & H). injection H as <- _.
      apply context_on_text_keeps in Hc. apply Hc.
    - injection H as <- _. apply same_open_refl. }
  simpl. intros -> H.
  apply bind_Ok in H as (c & Hc & H). injection H as <- _.
  eapply step_inline_keeps_stack; eassumption.
Qed.

Lemma inline_events_keep_stack (evs : list (Node * bool)) (w w' : Walk)
    (out : list Segment) :
  Forall (fun ev => inline_event ev = true) evs ->
  run evs w = Ok (w', out) ->
  same_open (stack (context w)) (stack (context w')).
Proof.
  intros Hall; revert w w' out.
  induction Hall as [|ev evs Hev _ IH]; intros w w' out; simpl.
  - intros H; injection H as <- _. apply same_open_refl.
  - intros H. apply bind_Ok in H as ([w1 o1] & H1 & H).
    apply bind_Ok in H as ([w2 o2] & H2 & H). injection H as <- _.
    eapply same_open_trans.
    + eapply inline_event_keeps_stack; eassumption.
    + eapply IH; eassumption.
Qed.

Lemma inline_tree_events (tr : Tree) :
  inline_tree tr = true ->
  Forall (fun ev => inline_event ev = true) (walk tr).
Proof.
  induction tr as [k s|k l cs IH] using Tree_nested_ind; cbn [inline_tree walk].
  - intros H. constructor; [exact H|constructor].
  - intros H. apply andb_prop in H as [Hk Hcs].
    assert (Hev : forall b, inline_event (mkNode k true [] l, b) = true).
    { intros b. unfold inline_event; simpl. rewrite Hk.
      now rewrite !orb_true_r. }
    constructor; [apply Hev|].
    apply Forall_app; split; [|constructor; [apply Hev|constructor]].
    rewrite forallb_forall in Hcs. rewrite Forall_forall in IH.
    apply Forall_flat_map. apply Forall_forall. intros c Hc.
    apply IH; auto.
Qed.

Lemma inline_forest_events (forest : list Tree) :
  forallb inline_tree forest = true ->
  Forall (fun ev => inline_event ev = true) (walker forest).
Proof.
  intros H. rewrite forallb_forall in H.
  unfold walker. apply Forall_flat_map. apply Forall_forall.
  intros tr Htr. apply inline_tree_events; auto.
Qed.

Lemma on_text_takes (ctx : MarkdownContext) (e : MarkdownElement) (s : str) :
  takes_text e = true ->
  exists e', on_text ctx e s = Ok e' /\ takes_text e' = true.
Proof.
  destruct e as [|st [tx|]|l [tx|]|st [tx|]|els| |its|st [tx|] els]; simpl;
    intros H; try discriminate; eexists; split; reflexivity.
Qed.

Lemma context_on_text_Ok (ctx : MarkdownContext) (s : str) :
  top_takes_text (stack ctx) = true ->
  exists ctx',
    context_on_text ctx s = Ok ctx'
    /\ top_takes_text (stack ctx') = true.
Proof.
  unfold context_on_text, top_takes_text.
  destruct (stack ctx) as [|top rest]; [discriminate|]. intros H.
  destruct (on_text_takes ctx top s H) as (top' & -> & Ht); simpl.
  eexists; split; [reflexivity|]. exact Ht.
Qed.

Lemma inline_forest_Ok (cs : list Tree) :
  Forall (fun tr =>
            inline_tree tr = true ->
            forall w, top_takes_text (stack (context w)) = true ->
            exists w' out,
              run (walk tr) w = Ok (w', out)
              /\ top_takes_text (stack (context w')) = true) cs ->
  forallb inline_tree cs = true ->
  forall w, top_takes_text (stack (context w)) = true ->
  exists w' out,
    run (walker cs) w = Ok (w', out)
    /\ top_takes_text (stack (context w')) = true.
Proof.
  unfold walker.
  induction 1 as [|c cs Hc _ IH]; cbn [forallb flat_map]; intros Hall w Hw.
  - exists w, []; auto.
  - apply andb_prop in Hall as [Hin Hall].
    destruct (Hc Hin w Hw) as (w1 & o1 & H1 & Hw1).
    destruct (IH Hall w1 Hw1) as (w2 & o2 & H2 & Hw2).
    rewrite run_app, H1; cbn. rewrite H2; cbn. eauto.
Qed.

(** In a registry that has [none], the events of inline spans raise
    nothing where there is an element on top of the stack to take the
    text. *)
Lemma inline_walk_Ok (none : Style) (tr : Tree) :
  get_style "none" = Some none ->
  inline_tree tr = true ->
  forall w, top_takes_text (stack (context w)) = true ->
  exists w' out,
    run (walk tr) w = Ok (w', out)
    /\ top_takes_text (stack (context w')) = true.
Proof.
  intros Hnone.
  induction tr as [k s|k l cs IH] using Tree_nested_ind;
    cbn [inline_tree]; intros Hin w Hw.
  - cbn [walk run]. unfold step; cbn [t is_container literal].
    destruct (k =? "text")%string.
    { destruct (context_on_text_Ok _ s Hw) as (c & -> & Hc). cbn. eauto. }
    destruct (k =? "softbreak")%string.
    { destruct (context_on_text_Ok _ [NEWLINE] Hw) as (c & -> & Hc).
      cbn. eauto. }
    cbn in Hin. rewrite Hin.
    unfold step_inline; cbn [is_container literal t].
    rewrite (enter_style_Ok _ _ Hnone); cbn [bind].
    set (c1 := with_style_stack _ _).
    assert (Hc1 : top_takes_text (stack c1) = true) by exact Hw.
    assert (Ht : exists c2,
               (if truthy s then context_on_text c1 s else Ok c1) = Ok c2
               /\ top_takes_text (stack c2) = true
               /\ style_stack c2 = style_stack c1).
    { destruct (truthy s).
      - destruct (context_on_text_Ok _ s Hc1) as (c2 & E & Hc2).
        exists c2. split; [exact E|]. split; [exact Hc2|].
        apply context_on_text_keeps in E. apply E.
      - exists c1; auto. }
    destruct Ht as (c2 & -> & Hc2 & Hst2); cbn [bind].
    destruct (@leave_after_push c2 (style_stack (context w))
                (resolved none ("markdown." ++ k)%string))
      as (c3 & -> & Hs3 & _); [rewrite Hst2; reflexivity|].
    cbn. rewrite <- Hs3 in Hc2. eauto.
  - apply andb_prop in Hin as [Hk Hcs].
    destruct (inlines_not_text _ Hk) as [Hnt Hns].
    cbn [walk run]. unfold step at 1; cbn [t is_container literal].
    rewrite Hnt, Hns, Hk.
    unfold step_inline; cbn [is_container t].
    rewrite (enter_style_Ok _ _ Hnone); cbn [bind].
    set (w1 := mkWalk _ _).
    destruct (inline_forest_Ok IH Hcs w1 Hw) as (w2 & o2 & H2 & Hw2).
    rewrite run_app. unfold walker in H2. rewrite H2; cbn [bind].
    cbn [run]. unfold step; cbn [t is_container literal].
    rewrite Hnt, Hns, Hk.
    unfold step_inline; cbn [is_container t].
    assert (H2' : run (walker cs) w1 = Ok (w2, o2)) by exact H2.
    apply walker_framed in H2' as (_ & Hst & _).
    destruct (@leave_after_push (context w2) (style_stack (context w))
                (resolved none ("markdown." ++ k)%string))
      as (c3 & -> & Hs3 & _); [rewrite Hst; reflexivity|].
    cbn. rewrite <- Hs3 in Hw2. eauto.
Qed.

(** C6.  The events of inline spans (emphasis, strong and code, as
    containers nested in one another or as leaves with their text, and
    the text and soft breaks in them).  Each is handled by the branch of
    inline spans, which yields nothing.  They raise nothing where an
    element on top of the stack takes the text and the registry has
    [none].  Once they are through, the style stack is as it was before;
    and at every event in between the element stack holds the same
    elements as before the first, none pushed and none popped. *)
Theorem inline_spans_keep_the_stacks (forest : list Tree) (w : Walk)
    (Hinline : forallb inline_tree forest = true) :
  (forall node entering,
      inlines (t node) = true ->
      step w (node, entering)
      = (ctx <- step_inline (context w) node entering ;;
         Ok (mkWalk ctx (pending_new_line w), [])))
  /\ (forall none,
        get_style "none" = Some none ->
        top_takes_text (stack (context w)) = true ->
        exists w', run (walker forest) w = Ok (w', []))
  /\ (forall w' out,
        run (walker forest) w = Ok (w', out) ->
        style_stack (context w') = style_stack (context w)
        /\ List.length (entered (style_stack (context w')))
           = List.length (entered (style_stack (context w)))
        /\ same_open (stack (context w)) (stack (context w'))
        /\ out = [] /\ pending_new_line w' = pending_new_line w)
  /\ (forall evs rest w1 out1,
        walker forest = evs ++ rest ->
        run evs w = Ok (w1, out1) ->
        same_open (stack (context w)) (stack (context w1))
        /\ List.length (stack (context w1)) = List.length (stack (context w))).
Proof.
  pose proof (inline_forest_events _ Hinline) as Hevs.
  assert (Hquiet : Forall (fun ev => closes ev = false) (walker forest)).
  { eapply Forall_impl; [|exact Hevs]. apply inline_event_not_closes. }
  split; [|split; [|split]].
  - intros node entering Hk. unfold step.
    destruct (inlines_not_text _ Hk) as [-> ->]. now rewrite Hk.
  - intros none Hnone Htop.
    destruct (@inline_forest_Ok forest) with (w := w)
      as (w' & out & Hrun & _); [|exact Hinline|exact Htop|].
    + apply Forall_forall. intros tr _ Htr.
      apply (inline_walk_Ok tr Hnone Htr).
    + exists w'. destruct (@run_keeps_pending _ _ _ _ Hquiet Hrun) as [_ <-].
      exact Hrun.
  - intros w' out Hrun.
    destruct (@run_keeps_pending _ _ _ _ Hquiet Hrun) as [Hp ->].
    apply walker_framed in Hrun as (_ & Hst & Hs).
    rewrite Hst. auto.
  - intros evs rest w1 out1 Hsplit Hrun.
    rewrite Hsplit in Hevs. apply Forall_app in Hevs as [Hevs _].
    pose proof (@inline_events_keep_stack _ _ _ _ Hevs Hrun) as Hs.
    split; [exact Hs|]. now apply same_open_length.
Qed.

(** *** The walker gets across the documents of the parser's shape *)

Lemma mapM_Ok {A B} (f : A -> result B) (l : list A) :
  Forall (fun a => exists b, f a = Ok b) l -> exists bs, mapM f l = Ok bs.
Proof.
  induction 1 as [|a l (b & Hb) _ (bs & Hbs)]; simpl; [eauto|].
  rewrite Hb, Hbs; simpl; eauto.
Qed.

Lemma good_renders (e : MarkdownElement) (o : ConsoleOptions) :
  fits (max_width o) = true ->
  good e = true -> exists segs, console_render e o = Ok segs.
Proof.
  intros Hfits Hgood.
  assert (H : exists items, console_ e o = Ok items).
  { revert Hgood.
    induction e as [|st tx|l tx|st tx|els IH| |its _|st tx els _]
      using MarkdownElement_nested_ind; simpl; eauto.
    - destruct tx; simpl; [eauto|discriminate].
    - destruct tx; simpl; [eauto|discriminate].
    - destruct tx; simpl; [eauto|discriminate].
    - intros Hall. rewrite forallb_forall in Hall.
      destruct (@mapM_Ok _ _ (fun element => console_ element o) els)
        as (ys & ->); [|simpl; eauto].
      rewrite Forall_forall in IH. apply Forall_forall.
      intros x Hx. apply IH; auto.
    - intros _. unfold HorizontalRule_console.
      rewrite (str_mul_fits _ _ Hfits). simpl; eauto.
    - intros Hall. rewrite forallb_forall in Hall.
      destruct (@mapM_Ok _ _ (fun item => render_bullet item o) its)
        as (ys & ->); [|simpl; eauto].
      apply Forall_forall. intros x Hx. apply Hall in Hx.
      destruct x as [| | | | | | |[style|] tx els]; try discriminate.
      simpl; eauto.
    - destruct st, tx; simpl; try discriminate; eauto. }
  destruct H as (items & H). unfold console_render. rewrite H; simpl; eauto.
Qed.

Lemma element_class_not_block_quote (k : string) :
  (k =? "block_quote")%string = false -> element_class k <> CBlockQuote.
Proof.
  unfold element_class, elements_get. intros H.
  repeat match goal with
         | |- context [(k =? ?x)%string] =>
             destruct (k =? x)%string; try discriminate
         end.
Qed.

Lemma element_class_not_list (k : string) :
  (k =? "list")%string = false -> element_class k <> CListElement.
Proof.
  unfold element_class, elements_get. intros H.
  repeat match goal with
         | |- context [(k =? ?x)%string] =>
             destruct (k =? x)%string; try discriminate
         end.
Qed.

Lemma element_class_item (k : string) :
  (k =? "item")%string = true -> element_class k = CListItem.
Proof. intros H. apply String.eqb_eq in H as ->. reflexivity. Qed.

Lemma good_item_entered (e : MarkdownElement) :
  class_of e = CListItem -> good e = true -> entered_item e = true.
Proof.
  destruct e as [| | | | | | |[st|] tx els]; simpl; try discriminate; auto.
Qed.

(** The element created for a node, once entered. *)
Lemma on_enter_created (none : Style) (ctx : MarkdownContext)
    (c : ElementClass) (node : Node) :
  get_style "none" = Some none ->
  exists ctx1 e1,
    on_enter ctx (create c node) = Ok (ctx1, e1)
    /\ good e1 = true
    /\ (c <> CBlockQuote -> takes_text e1 = true).
Proof.
  intros Hnone.
  destruct c; simpl; unfold TextElement_on_enter;
    rewrite ?(enter_style_Ok _ _ Hnone); simpl;
    do 2 eexists; (split; [reflexivity|]); split; auto; congruence.
Qed.

Lemma on_text_good (ctx : MarkdownContext) (e e' : MarkdownElement) (s : str) :
  on_text ctx e s = Ok e' ->
  good e = true -> good e' = true.
Proof.
  destruct e as [|st [tx|]|l [tx|]|st [tx|]|els| |its|st [tx|] els]; simpl;
    intros H; try discriminate; injection H as <-; simpl; auto.
Qed.

Lemma on_child_close_good (ctx : MarkdownContext) (top child : MarkdownElement) :
  good top = true -> good child = true ->
  (class_of top = CListElement -> entered_item child = true) ->
  good (fst (on_child_close ctx top child)) = true
  /\ takes_text (fst (on_child_close ctx top child)) = takes_text top.
Proof.
  destruct top; simpl; intros Ht Hc Hitem; auto.
  - rewrite forallb_app, Ht; simpl. now rewrite Hc.
  - rewrite forallb_app, Ht; simpl. now rewrite Hitem.
Qed.

Lemma on_leave_Ok (ctx : MarkdownContext) (e : MarkdownElement)
    (ss : StyleStack) :
  (if styled (class_of e)
   then exists s, style_stack ctx = StyleStack_push ss s
   else True) ->
  exists ctx', on_leave ctx e = Ok ctx' /\ stack ctx' = stack ctx.
Proof.
  destruct e; simpl; intros H;
    try (eexists; split; reflexivity);
    destruct H as (s & H);
    destruct (leave_after_push ctx H) as (c' & -> & Hs & _);
    simpl; eauto.
Qed.

Lemma context_on_text_ready (ctx : MarkdownContext) (s : str) :
  top_takes_text (stack ctx) = true ->
  forallb good (stack ctx) = true ->
  exists ctx',
    context_on_text ctx s = Ok ctx'
    /\ forallb good (stack ctx') = true
    /\ top_takes_text (stack ctx') = true.
Proof.
  unfold context_on_text, top_takes_text.
  destruct (stack ctx) as [|top rest] eqn:Hs; [discriminate|]. simpl.
  intros Ht Hg. apply andb_prop in Hg as [Hg Hrest].
  destruct (on_text_takes ctx top s Ht) as (top' & E & Ht').
  rewrite E; simpl. eexists; split; [reflexivity|].
  unfold set_top; rewrite Hs; simpl.
  rewrite (on_text_good _ _ _ E Hg), Hrest. auto.
Qed.

Lemma ready_after (text_ok in_list : bool) (s s' : list MarkdownElement) :
  ready text_ok in_list s ->
  same_open s s' ->
  forallb good s' = true ->
  (top_takes_text s = true -> top_takes_text s' = true) ->
  ready text_ok in_list s'.
Proof.
  intros (_ & Htext & Hlist) Hopen Hgood Htakes.
  split; [exact Hgood|]. split; [auto|].
  intros Hin top' rest' ->.
  destruct s as [|top rest]; [contradiction|].
  destruct Hopen as [Hcl _]. rewrite <- Hcl. eapply Hlist; eauto.
Qed.

Lemma shaped_forest_Ok (cs : list Tree) :
  Forall gets_across cs ->
  forall text_ok in_list w,
    forallb (shaped text_ok in_list) cs = true ->
    ready text_ok in_list (stack (context w)) ->
    fits (max_width (options (context w))) = true ->
    exists w' out,
      run (walker cs) w = Ok (w', out)
      /\ forallb good (stack (context w')) = true
      /\ (top_takes_text (stack (context w)) = true ->
          top_takes_text (stack (context w')) = true).
Proof.
  unfold walker.
  induction 1 as [|c cs Hc _ IH]; cbn [forallb flat_map];
    intros text_ok in_list w Hall Hw Hfit.
  - exists w, []. split; [reflexivity|]. split; [apply Hw|auto].
  - apply andb_prop in Hall as [Hshape Hall].
    destruct (Hc _ _ w Hshape Hw Hfit) as (w1 & o1 & H1 & Hg1 & Ht1).
    assert (Hf1 := H1). apply walk_framed in Hf1.
    assert (Hw1 : ready text_ok in_list (stack (context w1))).
    { eapply ready_after; [exact Hw| |exact Hg1|exact Ht1]. apply Hf1. }
    assert (Hfit1 : fits (max_width (options (context w1))) = true).
    { destruct Hf1 as (-> & _). exact Hfit. }
    destruct (IH _ _ w1 Hall Hw1 Hfit1) as (w2 & o2 & H2 & Hg2 & Ht2).
    rewrite run_app, H1; cbn. rewrite H2; cbn.
    do 2 eexists. split; [reflexivity|]. split; [exact Hg2|auto].
Qed.

Lemma shaped_walk_Ok (none : Style) (tr : Tree) :
  get_style "none" = Some none -> gets_across tr.
Proof.
  intros Hnone.
  induction tr as [k s|k l cs IH] using Tree_nested_ind;
    intros text_ok in_list w Hshape Hw Hfit; cbn [shaped] in Hshape.
  - (* a leaf *)
    destruct Hw as (Hgood & Htext & _).
    cbn [walk run]. unfold step; cbn [t is_container literal].
    destruct (k =? "text")%string eqn:Ek.
    { cbn in Hshape.
      destruct (@context_on_text_ready (context w) s (Htext Hshape) Hgood)
        as (c & -> & Hg & Ht).
      cbn. eauto. }
    destruct (k =? "softbreak")%string eqn:Es.
    { cbn in Hshape.
      destruct (@context_on_text_ready (context w) [NEWLINE]
                  (Htext Hshape) Hgood) as (c & -> & Hg & Ht).
      cbn. eauto. }
    cbn in Hshape.
    destruct (inlines k) eqn:Ei.
    { unfold step_inline; cbn [is_container literal t].
      rewrite (enter_style_Ok _ _ Hnone); cbn [bind].
      set (c1 := with_style_stack _ _).
      assert (Ht : exists c2,
                 (if truthy s then context_on_text c1 s else Ok c1) = Ok c2
                 /\ forallb good (stack c2) = true
                 /\ (top_takes_text (stack (context w)) = true ->
                     top_takes_text (stack c2) = true)
                 /\ style_stack c2 = style_stack c1).
      { destruct (truthy s).
        - rewrite orb_false_r in Hshape.
          destruct (@context_on_text_ready c1 s (Htext Hshape) Hgood)
            as (c2 & E & Hg & Ht).
          exists c2. split; [exact E|]. split; [exact Hg|].
          split; [auto|].
          apply context_on_text_keeps in E. apply E.
        - exists c1; auto. }
      destruct Ht as (c2 & -> & Hg2 & Ht2 & Hst2); cbn [bind].
      destruct (@leave_after_push c2 (style_stack (context w))
                  (resolved none ("markdown." ++ k)%string))
        as (c3 & -> & Hs3 & _); [rewrite Hst2; reflexivity|].
      cbn. rewrite <- Hs3 in Hg2, Ht2. eauto. }
    (* a leaf of an element kind *)
    unfold step_leaf; cbn [t literal].
    set (node := mkNode k false s 0).
    destruct (@on_enter_created none
                (Stack_push (context w) (create (element_class k) node))
                (element_class k) node Hnone)
      as (c2 & e1 & He & Hg1 & Ht1).
    rewrite He; cbn [bind].
    assert (Htx : exists e2,
               (if truthy s then on_text c2 e1 (rstrip s) else Ok e1) = Ok e2
               /\ good e2 = true /\ class_of e2 = class_of e1).
    { destruct (truthy s).
      - rewrite orb_false_r in Hshape.
        apply negb_true_iff in Hshape.
        apply element_class_not_block_quote in Hshape.
        destruct (on_text_takes c2 e1 (rstrip s) (Ht1 Hshape))
          as (e2 & E & _).
        exists e2. split; [exact E|]. split.
        + eapply on_text_good; eassumption.
        + eapply on_text_class; eassumption.
      - exists e1; auto. }
    destruct Htx as (e2 & -> & Hg2 & Hcl2); cbn [bind].
    apply on_enter_spec in He as (Hcl1 & Hs2 & Ho2 & Hst2).
    rewrite class_of_create in Hcl1, Hst2.
    unfold Stack_pop, set_top; cbn.
    assert (Hfit2 : fits (max_width (options c2)) = true)
      by (rewrite Ho2; exact Hfit).
    destruct (good_renders e2 (options c2) Hfit2 Hg2) as (segs & ->);
      cbn [bind].
    match goal with
    | |- context [on_leave ?c e2] =>
        destruct (@on_leave_Ok c e2 (style_stack (context w)))
          as (c4 & Hl4 & Hs4)
    end.
    { rewrite Hcl2, Hcl1. destruct (styled (element_class k)); [|exact I].
      exact Hst2. }
    rewrite Hl4. cbn. do 2 eexists. split; [reflexivity|]. cbn.
    rewrite Hs4; cbn. rewrite Hs2; cbn. auto.
  - (* a container *)
    destruct (inlines k) eqn:Ei.
    + destruct (inlines_not_text _ Ei) as [Hnt Hns].
      cbn [walk run]. unfold step at 1; cbn [t is_container literal].
      rewrite Hnt, Hns, Ei.
      unfold step_inline; cbn [is_container t].
      rewrite (enter_style_Ok _ _ Hnone); cbn [bind].
      set (w1 := mkWalk _ _).
      destruct (@shaped_forest_Ok cs IH text_ok in_list w1 Hshape Hw Hfit)
        as (w2 & o2 & H2 & Hg2 & Ht2).
      rewrite run_app. unfold walker in H2. rewrite H2; cbn [bind].
      cbn [run]. unfold step; cbn [t is_container literal].
      rewrite Hnt, Hns, Ei.
      unfold step_inline; cbn [is_container t].
      assert (H2' : run (walker cs) w1 = Ok (w2, o2)) by exact H2.
      apply walker_framed in H2' as (_ & Hst & _).
      destruct (@leave_after_push (context w2) (style_stack (context w))
                  (resolved none ("markdown." ++ k)%string))
        as (c3 & -> & Hs3 & _); [rewrite Hst; reflexivity|].
      cbn. rewrite <- Hs3 in Hg2, Ht2.
      do 2 eexists. split; [reflexivity|]. split; [exact Hg2|exact Ht2].
    + apply andb_prop in Hshape as [Hshape Hcs].
      apply andb_prop in Hshape as [Hk Hitem].
      destruct Hw as (Hgood & Htext & Hlist).
      set (node := mkNode k true [] l).
      cbn [walk run]. fold node.
      rewrite (element_kind_step node true w Hk). cbn [is_container node].
      unfold step_enter; cbn [t node]. fold node.
      destruct (@on_enter_created none
                  (Stack_push (context w) (create (element_class k) node))
                  (element_class k) node Hnone)
        as (c2 & e1 & He & Hg1 & Ht1).
      rewrite He; cbn [bind].
      apply on_enter_spec in He as (Hcl1 & Hs2 & Ho2 & Hst2).
      rewrite class_of_create in Hcl1, Hst2. cbn in Hs2.
      set (w1 := mkWalk (set_top c2 e1) (pending_new_line w)).
      assert (Hs1 : stack (context w1) = e1 :: stack (context w)).
      { unfold w1, set_top; cbn. now rewrite Hs2. }
      assert (Hw1 : ready (negb (k =? "block_quote")%string)
                      (k =? "list")%string (stack (context w1))).
      { rewrite Hs1. split; [cbn; now rewrite Hg1, Hgood|]. split.
        - intros Hq. apply negb_true_iff in Hq.
          apply element_class_not_block_quote in Hq. cbn. auto.
        - intros Hq top rest E. injection E as <- _.
          rewrite Hcl1. now apply element_class_not_list. }
      assert (Hfit1 : fits (max_width (options (context w1))) = true)
        by (unfold w1; cbn; rewrite Ho2; exact Hfit).
      destruct (@shaped_forest_Ok cs IH _ _ w1 Hcs Hw1 Hfit1)
        as (w2 & o2 & H2 & Hg2 & _).
      rewrite run_app. unfold walker in H2. rewrite H2; cbn [bind].
      assert (H2' : run (walker cs) w1 = Ok (w2, o2)) by exact H2.
      apply walker_framed in H2' as (Ho & Hst & Hso).
      rewrite Hs1 in Hso.
      assert (Hfit2 : fits (max_width (options (context w2))) = true)
        by (rewrite Ho; exact Hfit1).
      destruct (stack (context w2)) as [|e2 rest2] eqn:Hs2'; [contradiction|].
      destruct Hso as [Hcl2 <-].
      cbn in Hg2. apply andb_prop in Hg2 as [Hge2 _].
      cbn [run]. rewrite (element_kind_step node false w2 Hk).
      cbn [is_container node].
      unfold step_leave, Stack_pop. rewrite Hs2'; cbn [bind].
      assert (Hleave : forall c, style_stack c = style_stack (context w2) ->
                 exists c', on_leave c e2 = Ok c' /\ stack c' = stack c).
      { intros c Hc. apply on_leave_Ok with (ss := style_stack (context w)).
        rewrite <- Hcl2, Hcl1.
        destruct (styled (element_class k)); [|exact I].
        rewrite Hc, Hst. exact Hst2. }
      cbn [stack with_stack].
      destruct (stack (context w)) as [|top rest] eqn:Hsw.
      * destruct (Hleave (with_stack (context w2) []) eq_refl)
          as (c3 & Hl3 & Hs3).
        rewrite Hl3; cbn [bind].
        apply on_leave_spec in Hl3 as (_ & Ho3 & _).
        assert (Hfit3 : fits (max_width (options c3)) = true)
          by (rewrite Ho3; exact Hfit2).
        destruct (good_renders e2 (options c3) Hfit3 Hge2) as (segs & ->).
        cbn. do 2 eexists. split; [reflexivity|]. cbn.
        rewrite Hs3. cbn. auto.
      * cbn in Hgood. apply andb_prop in Hgood as [Hgtop Hgrest].
        destruct (@on_child_close_good
                    (with_stack (context w2) (top :: rest)) top e2
                    Hgtop Hge2) as (Hgt' & Htt').
        { intros Hcl. apply good_item_entered; [|exact Hge2].
          rewrite <- Hcl2, Hcl1. apply element_class_item.
          destruct in_list; [exact Hitem|].
          exfalso. eapply Hlist; eauto. }
        destruct (on_child_close _ top e2) as [top' flush].
        cbn [fst] in Hgt', Htt'.
        destruct flush.
        -- destruct (good_renders e2
                       (options (set_top (with_stack (context w2)
                                            (top :: rest)) top')) Hfit2 Hge2)
             as (segs & ->); cbn [bind].
           destruct (Hleave (set_top (with_stack (context w2) (top :: rest))
                               top') eq_refl) as (c3 & -> & Hs3).
           cbn. do 2 eexists. split; [reflexivity|]. cbn.
           rewrite Hs3. cbn. rewrite Hgt', Hgrest, Htt'. auto.
        -- destruct (Hleave (set_top (with_stack (context w2) (top :: rest))
                               top') eq_refl) as (c3 & -> & Hs3).
           cbn. do 2 eexists. split; [reflexivity|]. cbn.
           rewrite Hs3. cbn. rewrite Hgt', Hgrest, Htt'. auto.
Qed.

(** C2.  The traversal of a forest of nodes.  A render starts with
    no element and no style open.  The walker gets across the events of
    the forest when its trees have the shape the parser gives, the
    registry has [none] and the line of a rule can be made at the width of
    the options.  Whenever it gets across them, the style stack
    is after the last event what it was before the first, and the element
    stack holds the same elements, as many: from the start of a render,
    none.  The entering of a container of an element kind pushes the
    element created for it; when the events of its children are through,
    whatever they pushed is popped and that element is on top again; and
    its leaving pops that very element. *)
Theorem traversal_balances_the_stacks (forest : list Tree) (w : Walk) :
  (forall o,
      stack (context (Walk_init o)) = []
      /\ entered (style_stack (context (Walk_init o))) = [])
  /\ (forall none text_ok in_list,
        get_style "none" = Some none ->
        forallb (shaped text_ok in_list) forest = true ->
        ready text_ok in_list (stack (context w)) ->
        fits (max_width (options (context w))) = true ->
        exists w' out, run (walker forest) w = Ok (w', out))
  /\ (forall w' out,
        run (walker forest) w = Ok (w', out) ->
        style_stack (context w') = style_stack (context w)
        /\ List.length (entered (style_stack (context w')))
           = List.length (entered (style_stack (context w)))
        /\ same_open (stack (context w)) (stack (context w'))
        /\ List.length (stack (context w')) = List.length (stack (context w))
        /\ (forall o,
              w = Walk_init o ->
              stack (context w') = []
              /\ entered (style_stack (context w')) = [])
        /\ (forall k l cs,
              forest = [Container k l cs] ->
              element_kind k = true ->
              exists w1 w2 out2 out3 e1 e2,
                step w (mkNode k true [] l, true) = Ok (w1, [])
                /\ stack (context w1) = e1 :: stack (context w)
                /\ class_of e1 = element_class k
                /\ run (walker cs) w1 = Ok (w2, out2)
                /\ stack (context w2) = e2 :: stack (context w)
                /\ class_of e2 = class_of e1
                /\ Stack_pop (context w2)
                   = Ok (with_stack (context w2) (stack (context w)), e2)
                /\ step w2 (mkNode k true [] l, false) = Ok (w', out3)
                /\ step w2 (mkNode k true [] l, false) = step_leave w2)).
Proof.
  split; [intros o; split; reflexivity|]. split.
  { intros none text_ok in_list Hnone Hshape Hready Hfit.
    destruct (@shaped_forest_Ok forest) with (w := w) (text_ok := text_ok)
      (in_list := in_list) as (w' & out & Hrun & _);
      [|exact Hshape|exact Hready|exact Hfit|eauto].
    apply Forall_forall. intros tr _.
    apply (shaped_walk_Ok tr Hnone). }
  intros w' out Hrun.
  pose proof (@walker_framed _ _ _ _ Hrun) as (Ho & Hst & Hs).
  split; [exact Hst|]. split; [now rewrite Hst|].
  split; [exact Hs|]. split; [now apply same_open_length|]. split.
  - intros o ->. rewrite Hst. cbn in *.
    destruct (stack (context w')); [auto|contradiction].
  - intros k l cs -> Hk.
    unfold walker in Hrun; cbn [flat_map] in Hrun.
    rewrite app_nil_r in Hrun.
    apply run_container in Hrun
      as (w1 & o1 & w2 & o2 & o3 & H1 & H2 & H3 & _).
    pose proof H1 as H1'. rewrite element_kind_step in H1' by exact Hk.
    cbn [is_container] in H1'.
    apply bind_Ok in H1' as (c1 & Hc1 & H1'). injection H1' as <- <-.
    apply step_enter_spec in Hc1 as (e1 & Hs1 & Hcl1 & _).
    cbn [t] in Hcl1.
    pose proof (@walker_framed _ _ _ _ H2) as (_ & _ & Hs2).
    cbn [context] in Hs2. rewrite Hs1 in Hs2.
    destruct (stack (context w2)) as [|e2 r2] eqn:Hs2'; [contradiction|].
    destruct Hs2 as [Hcl2 <-].
    exists (mkWalk c1 (pending_new_line w)), w2, o2, o3, e1, e2.
    split; [exact H1|]. split; [exact Hs1|]. split; [exact Hcl1|].
    split; [exact H2|]. split; [exact Hs2'|]. split; [now symmetry|].
    split; [unfold Stack_pop; now rewrite Hs2'|].
    split; [exact H3|].
    rewrite element_kind_step by exact Hk. reflexivity.
Qed.

(** C8 (amended).  At a width of zero or less that is a machine index,
    the rule gives a result: its newline alone, after a body of no
    character; an element that renders at some width renders at this
    one; and the render of a document of the shape the parser gives, in a
    registry that has [none], gives its segments.  Below the machine
    indices the rule raises [OverflowError].  At any width of zero or
    less a heading yields what it yields at every width, and a list item
    the bulleted lines that [render_lines] gives at the width less three,
    which is negative. *)
Theorem degenerate_width_is_defined (o : ConsoleOptions)
    (Hwidth : max_width o <= 0) :
  let newline_only := mkSegment [NEWLINE] (get_style "markdown.hr") in
  (INDEX_MIN <= max_width o ->
   str_mul allocates RULE (max_width o) = Ok []
   /\ console_ HorizontalRule o = Ok [RSegment newline_only]
   /\ console_render HorizontalRule o = Ok [newline_only]
   /\ (forall e o',
         (exists r, console_ e o' = Ok r) -> exists r, console_ e o = Ok r)
   /\ (forall none parsed,
         get_style "none" = Some none ->
         shaped false false parsed = true ->
         exists out, Markdown_console parsed o = Ok out))
  /\ (max_width o < INDEX_MIN ->
      str_mul allocates RULE (max_width o) = Raise OverflowError
      /\ console_ HorizontalRule o = Raise OverflowError
      /\ console_render HorizontalRule o = Raise OverflowError)
  /\ (forall l tx o',
        console_ (Heading l (Some tx)) o = Ok (Heading_console l tx)
        /\ console_ (Heading l (Some tx)) o
           = console_ (Heading l (Some tx)) o')
  /\ (forall style tx els,
        render_bullet (ListItem (Some style) tx els) o
        = Ok (bullet_lines 0
                (render_lines els (mkOptions (max_width o - 3)) style))
        /\ max_width o - 3 < 0).
Proof.
  cbv zeta. split; [|split; [|split]].
  - intros Hlow.
    assert (Hfits : fits (max_width o) = true).
    { unfold fits.
      destruct (Z.leb_spec INDEX_MIN (max_width o)); [|lia].
      destruct (Z.leb_spec (max_width o) INDEX_MAX);
        [|unfold INDEX_MAX in *; lia].
      destruct (Z.ltb_spec (max_width o) 1); [reflexivity|lia]. }
    assert (Hbody : str_mul allocates RULE (max_width o) = Ok []).
    { rewrite (str_mul_fits _ _ Hfits).
      replace (Z.to_nat (max_width o)) with 0%nat by lia. reflexivity. }
    split; [exact Hbody|].
    assert (Hrule : console_ HorizontalRule o
                    = Ok [RSegment (mkSegment [NEWLINE]
                                      (get_style "markdown.hr"))]).
    { simpl. unfold HorizontalRule_console. now rewrite Hbody. }
    split; [exact Hrule|].
    split; [unfold console_render; now rewrite Hrule|].
    split.
    2:{ intros none parsed Hnone Hshape.
        destruct (@shaped_walk_Ok none parsed Hnone false false (Walk_init o)
                    Hshape) as (w' & out & Hrun & _).
        - split; [reflexivity|]. split; discriminate.
        - exact Hfits.
        - unfold Markdown_console. rewrite Hrun. simpl; eauto. }
    intros e o'.
    induction e as [|st tx|l tx|st tx|els IH| |its _|st tx els _]
      using MarkdownElement_nested_ind.
    all: try (simpl; intros; eexists; reflexivity).
    all: try (simpl; destruct tx; intros (r & Hr); [eauto | discriminate]).
    + simpl. intros (r & Hr). apply bind_Ok in Hr as (ys & Hys & _).
      destruct (@mapM_Ok_Forall _ _ (fun element => console_ element o')
                  (fun element => console_ element o) els IH) as (ys' & ->);
        simpl; eauto.
    + intros _. rewrite Hrule. eauto.
    + simpl. intros (r & Hr). apply bind_Ok in Hr as (ys & Hys & _).
      destruct (@mapM_Ok_Forall _ _ (fun item => render_bullet item o')
                  (fun item => render_bullet item o) its) as (ys' & ->);
        simpl; eauto.
      apply Forall_forall. intros item _ (b & Hb).
      destruct item as [| | | | | | |[s|] tx els]; try discriminate.
      simpl; eauto.
  - intros Hlow. unfold console_render; simpl. unfold HorizontalRule_console.
    rewrite (str_mul_overflow _ (or_introl Hlow)). repeat split.
  - intros l tx o'. split; reflexivity.
  - intros style tx els. split; [reflexivity|lia].
Qed.

(** ** Further properties of the module *)

(** *** What the walker yields, and when *)

Lemma step_keeps_options (w w' : Walk) (ev : Node * bool)
    (out : list Segment) :
  step w ev = Ok (w', out) -> options (context w') = options (context w).
Proof.
  destruct ev as [node entering]. unfold step.
  destruct (t node =? "text")%string.
  { intros H. apply bind_Ok in H as (c & Hc & H). injection H as <- _.
    apply context_on_text_keeps in Hc. apply Hc. }
  destruct (t node =? "softbreak")%string.
  { destruct entering; intros H.
    - apply bind_Ok in H as (c & Hc & H). injection H as <- _.
      apply context_on_text_keeps in Hc. apply Hc.
    - now injection H as <- _. }
  destruct (inlines (t node)).
  { intros H. apply bind_Ok in H as (c & Hc & H). injection H as <- _.
    simpl. unfold step_inline in Hc.
    destruct (is_container node) eqn:Hcont.
    - destruct entering;
        apply bind_Ok in Hc as ([c1 s1] & He & Hc); injection Hc as <-.
      + now apply enter_style_keeps in He.
      + now apply leave_style_keeps in He.
    - assert (Hf : framed (context w) c).
      { eapply step_inline_leaf_framed with (entering := entering);
          [exact Hcont|].
        unfold step_inline. rewrite Hcont. exact Hc. }
      apply Hf. }
  destruct (is_container node).
  - destruct entering; intros H.
    + apply bind_Ok in H as (c & Hc & H). injection H as <- _.
      apply step_enter_spec in Hc as (e1 & _ & _ & Ho & _). exact Ho.
    + unfold step_leave, Stack_pop in H.
      destruct (stack (context w)) as [|e rest]; [discriminate|].
      cbn [bind] in H. cbn [stack with_stack] in H.
      destruct rest as [|top rest'].
      * apply bind_Ok in H as (c2 & Hl & H).
        apply bind_Ok in H as (segs & _ & H). injection H as <- _.
        apply on_leave_spec in Hl as (_ & Ho & _). exact Ho.
      * destruct (on_child_close _ top e) as [top' flush].
        destruct flush.
        -- apply bind_Ok in H as (segs & _ & H).
           apply bind_Ok in H as (c3 & Hl & H). injection H as <- _.
           apply on_leave_spec in Hl as (_ & Ho & _). exact Ho.
        -- apply bind_Ok in H as (c3 & Hl & H). injection H as <- _.
           apply on_leave_spec in Hl as (_ & Ho & _). exact Ho.
  - intros H. apply step_leaf_framed in H. apply H.
Qed.

(** X2.  Across any events, nested or not, the walker keeps the options
    it was given; and what it yields it yields when an element closes:
    if it has yielded a segment, or its [new_line] has changed, one of
    the events was the leaving of a container or the visit of a leaf of
    an element kind. *)
Theorem walker_yields_only_at_a_close
    (evs : list (Node * bool)) (w w' : Walk) (out : list Segment)
    (Hrun : run evs w = Ok (w', out)) :
  options (context w') = options (context w)
  /\ (out <> [] -> Exists (fun ev => closes ev = true) evs)
  /\ (pending_new_line w' <> pending_new_line w ->
      Exists (fun ev => closes ev = true) evs).
Proof.
  revert w w' out Hrun.
  induction evs as [|ev evs IH]; intros w w' out Hrun; cbn [run] in Hrun.
  - injection Hrun as <- <-. repeat split; intros H; now elim H.
  - apply bind_Ok in Hrun as ([w1 o1] & H1 & Hrun).
    apply bind_Ok in Hrun as ([w2 o2] & H2 & Hrun).
    injection Hrun as <- <-.
    destruct (IH _ _ _ H2) as (Ho & Hout & Hpend).
    split; [rewrite Ho; eapply step_keeps_options; eassumption|].
    destruct (closes ev) eqn:Hev.
    { split; intros _; now apply Exists_cons_hd. }
    destruct (step_keeps_pending _ _ Hev H1) as [Hp ->].
    split; intros H; apply Exists_cons_tl.
    + apply Hout. exact H.
    + apply Hpend. now rewrite Hp.
Qed.

(** X3.  A leaf of an element kind is rendered at its visit, whatever
    is open: the walker yields the pending blank line and the segments
    of the element of the node, asks no parent about it, and leaves both
    stacks exactly as they were, so that a block quote, a list or a list
    item never collects a leaf. *)
Theorem leaf_is_rendered_at_its_visit
    (w w' : Walk) (node : Node) (entering : bool) (out : list Segment)
    (Hkind : element_kind (t node) = true)
    (Hleaf : is_container node = false)
    (Hstep : step w (node, entering) = Ok (w', out)) :
  stack (context w') = stack (context w)
  /\ style_stack (context w') = style_stack (context w)
  /\ options (context w') = options (context w)
  /\ exists element segs,
       class_of element = element_class (t node)
       /\ console_render element (options (context w)) = Ok segs
       /\ out = separator (pending_new_line w) ++ segs
       /\ pending_new_line w' = new_line element.
Proof.
  rewrite element_kind_step in Hstep by exact Hkind. rewrite Hleaf in Hstep.
  pose proof (step_leaf_framed _ _ Hstep) as (Ho & Hst & _).
  unfold step_leaf in Hstep.
  apply bind_Ok in Hstep as ([c2 e1] & He & Hstep).
  apply bind_Ok in Hstep as (e2 & Ht & Hstep).
  unfold Stack_pop, set_top in Hstep; cbn in Hstep.
  apply bind_Ok in Hstep as (segs & Hr & Hstep).
  apply bind_Ok in Hstep as (c4 & Hl & Hstep). injection Hstep as <- <-.
  apply on_enter_spec in He as (Hce & Hs2 & Ho2 & _).
  rewrite class_of_create in Hce. cbn in Hs2, Ho2.
  apply on_leave_spec in Hl as (Hs4 & _). cbn in Hs4. rewrite Hs2 in Hs4.
  cbn in *. split; [exact Hs4|]. split; [exact Hst|]. split; [exact Ho|].
  exists e2, segs. split; [|split; [|split; reflexivity]].
  - rewrite <- Hce. destruct (truthy (literal node)).
    + eapply on_text_class; eassumption.
    + now injection Ht as <-.
  - rewrite <- Ho2. exact Hr.
Qed.

(** X4.  The leaving of a container of an element kind, under a parent.
    Under a block quote, a list or a list item nothing is yielded and
    the parent holds the child as the last of what it has collected.
    Under any other parent the parent is unchanged and the walker yields
    the pending blank line and the segments of the child.  Either way
    the walker's [new_line] becomes that of the child. *)
Theorem child_close_protocol
    (w w' : Walk) (node : Node) (out : list Segment)
    (child parent : MarkdownElement) (rest : list MarkdownElement)
    (Hkind : element_kind (t node) = true)
    (Hcont : is_container node = true)
    (Hstack : stack (context w) = child :: parent :: rest)
    (Hstep : step w (node, false) = Ok (w', out)) :
  pending_new_line w' = new_line child
  /\ if absorbs (class_of parent)
     then out = []
          /\ exists parent',
               stack (context w') = parent' :: rest
               /\ class_of parent' = class_of parent
               /\ collected parent' = collected parent ++ [child]
     else stack (context w') = parent :: rest
          /\ exists segs,
               console_render child (options (context w)) = Ok segs
               /\ out = separator (pending_new_line w) ++ segs.
Proof.
  rewrite element_kind_step in Hstep by exact Hkind. rewrite Hcont in Hstep.
  unfold step_leave, Stack_pop in Hstep. rewrite Hstack in Hstep.
  cbn [bind stack with_stack] in Hstep.
  destruct parent as [|st tx|l tx|st tx|els| |its|st tx els];
    cbn [on_child_close absorbs class_of] in *;
    unfold set_top in Hstep; cbn in Hstep;
    match type of Hstep with
    | context [console_render] =>
        apply bind_Ok in Hstep as (segs & Hr & Hstep);
        apply bind_Ok in Hstep as (c3 & Hl & Hstep);
        injection Hstep as <- <-;
        apply on_leave_spec in Hl as (Hs & _); cbn in Hs |- *;
        rewrite Hs; split; [reflexivity|]; split; [reflexivity|];
        exists segs; split; [exact Hr|reflexivity]
    | _ =>
        apply bind_Ok in Hstep as (c3 & Hl & Hstep);
        injection Hstep as <- <-;
        apply on_leave_spec in Hl as (Hs & _); cbn in Hs |- *;
        rewrite Hs; split; [reflexivity|]; split; [reflexivity|];
        eexists; split; [reflexivity|]; split; reflexivity
    end.
Qed.

(** X5.  The leaving of a container of an element kind with nothing
    else open: its segments are yielded with no blank line before them,
    pending or not, and the element stack is empty. *)
Theorem top_level_close_has_no_separator
    (w w' : Walk) (node : Node) (out : list Segment)
    (element : MarkdownElement)
    (Hkind : element_kind (t node) = true)
    (Hcont : is_container node = true)
    (Hstack : stack (context w) = [element])
    (Hstep : step w (node, false) = Ok (w', out)) :
  stack (context w') = []
  /\ pending_new_line w' = new_line element
  /\ console_render element (options (context w)) = Ok out.
Proof.
  rewrite element_kind_step in Hstep by exact Hkind. rewrite Hcont in Hstep.
  unfold step_leave, Stack_pop in Hstep. rewrite Hstack in Hstep.
  cbn [bind stack with_stack] in Hstep.
  apply bind_Ok in Hstep as (c2 & Hl & Hstep).
  apply bind_Ok in Hstep as (segs & Hr & Hstep). injection Hstep as <- <-.
  apply on_leave_spec in Hl as (Hs & Ho & _). cbn in *.
  split; [exact Hs|]. split; [reflexivity|]. now rewrite <- Ho.
Qed.

(** X6.  A block quote takes no text.  With a block quote on top of the
    stack, a text and a soft break raise [AttributeError], and so does
    the walker on what follows; hence on a block quote node whose first
    child is a text, in a registry that has [none]. *)
Theorem block_quote_takes_no_text
    (w : Walk) (els rest : list MarkdownElement) (node : Node)
    (Hstack : stack (context w) = BlockQuote els :: rest)
    (Htext : t node = "text" \/ t node = "softbreak") :
  step w (node, true) = Raise AttributeError
  /\ (forall evs, run ((node, true) :: evs) w = Raise AttributeError)
  /\ (forall none w0 l s cs,
        get_style "none" = Some none ->
        run (walk (Container "block_quote" l (Leaf "text" s :: cs))) w0
        = Raise AttributeError).
Proof.
  assert (Hstep : step w (node, true) = Raise AttributeError).
  { unfold step. destruct Htext as [-> | ->]; cbn;
      unfold context_on_text; rewrite Hstack; reflexivity. }
  split; [exact Hstep|]. split.
  - intros evs. cbn [run]. now rewrite Hstep.
  - intros none w0 l s cs Hnone.
    cbn [walk flat_map app run].
    unfold step at 1; cbn. unfold step_enter; cbn.
    rewrite (enter_style_Ok _ _ Hnone); cbn. reflexivity.
Qed.

(** *** Rendering what was collected *)

Lemma mapM_app {A B} (f : A -> result B) (l1 l2 : list A) :
  mapM f (l1 ++ l2) =
  (a <- mapM f l1 ;; b <- mapM f l2 ;; Ok (a ++ b)).
Proof.
  induction l1 as [|x l1 IH]; simpl.
  - destruct (mapM f l2); reflexivity.
  - destruct (f x) as [y|e]; simpl; [|reflexivity].
    rewrite IH. destruct (mapM f l1) as [ys|e]; simpl; [|reflexivity].
    destruct (mapM f l2); reflexivity.
Qed.

Lemma render_bullets_Ok (its : list MarkdownElement) (o : ConsoleOptions) :
  forallb entered_item its = true ->
  mapM (fun item => render_bullet item o) its = Ok (map (bullet_of o) its).
Proof.
  induction its as [|item its IH]; simpl; [reflexivity|].
  intros H. apply andb_prop in H as [Hitem Hits].
  rewrite (IH Hits).
  destruct item as [| | | | | | |[style|] tx els]; try discriminate.
  reflexivity.
Qed.

Lemma render_bullets_Raise (its : list MarkdownElement) (o : ConsoleOptions) :
  forallb entered_item its = false ->
  mapM (fun item => render_bullet item o) its = Raise AttributeError.
Proof.
  induction its as [|item its IH]; simpl; [discriminate|].
  destruct (entered_item item) eqn:Hitem; simpl.
  - intros H. rewrite (IH H).
    destruct item as [| | | | | | |[style|] tx els]; try discriminate.
    reflexivity.
  - intros _.
    destruct item as [| | | | | | |[style|] tx els]; try discriminate;
      reflexivity.
Qed.

Lemma render_segments (o : ConsoleOptions) (segs : list Segment) :
  flat_map (render_item o) (map RSegment segs) = segs.
Proof.
  induction segs as [|s segs IH]; simpl; [reflexivity|]. now rewrite IH.
Qed.

(** X7.  A list renders the bullet forms of the items it has
    collected, in their order, when each of them is a list item that has
    its style; when one of them is not (another element was collected,
    or an item that was never entered) rendering the list raises
    [AttributeError]. *)
Theorem list_renders_its_items
    (its : list MarkdownElement) (o : ConsoleOptions) :
  (forallb entered_item its = true ->
   console_ (ListElement its) o
   = Ok (map RSegment (flat_map (bullet_of o) its))
   /\ console_render (ListElement its) o = Ok (flat_map (bullet_of o) its))
  /\ (forallb entered_item its = false ->
      console_ (ListElement its) o = Raise AttributeError
      /\ console_render (ListElement its) o = Raise AttributeError).
Proof.
  unfold console_render. cbn [console_]. split; intros H.
  - rewrite (render_bullets_Ok its o H); cbn.
    rewrite <- flat_map_concat_map, render_segments. auto.
  - rewrite (render_bullets_Raise its o H); cbn. auto.
Qed.

(** X8.  A block quote renders what it has collected in the order it
    collected it: an empty one renders as nothing, and one that holds
    [els1 ++ els2] as the output of the one that holds [els1] followed
    by the output of the one that holds [els2], the first exception
    being the one raised. *)
Theorem block_quote_renders_in_order
    (els1 els2 : list MarkdownElement) (o : ConsoleOptions) :
  console_render (BlockQuote []) o = Ok []
  /\ console_render (BlockQuote (els1 ++ els2)) o
     = (a <- console_render (BlockQuote els1) o ;;
        b <- console_render (BlockQuote els2) o ;;
        Ok (a ++ b))
  /\ (forall e,
        console_render (BlockQuote [e]) o = console_render e o).
Proof.
  unfold console_render. cbn [console_ mapM bind]. split; [reflexivity|].
  split.
  - rewrite mapM_app.
    destruct (mapM _ els1) as [ys1|e1]; cbn; [|reflexivity].
    destruct (mapM _ els2) as [ys2|e2]; cbn; [|reflexivity].
    now rewrite concat_app, flat_map_app.
  - intros e. destruct (console_ e o) as [ys|err]; cbn; [|reflexivity].
    now rewrite app_nil_r.
Qed.

(** *** Text *)

Lemma on_text_adds (ctx : MarkdownContext) (e : MarkdownElement) (s : str) :
  takes_text e = true ->
  on_text ctx e s = Ok (add_runs e [(s, current_style ctx)]).
Proof.
  destruct e as [|st [tx|]|l [tx|]|st [tx|]|els| |its|st [tx|] els]; simpl;
    intros H; try discriminate; reflexivity.
Qed.

Lemma add_runs_app (e : MarkdownElement) (r1 r2 : list (str * Style)) :
  add_runs (add_runs e r1) r2 = add_runs e (r1 ++ r2).
Proof.
  destruct e as [|st [tx|]|l [tx|]|st [tx|]|els| |its|st [tx|] els]; simpl;
    try reflexivity; now rewrite <- app_assoc.
Qed.

Lemma add_runs_nil (e : MarkdownElement) : add_runs e [] = e.
Proof.
  destruct e as [|st [[ts rs j]|]|l [[ts rs j]|]|st [[ts rs j]|]|els|
                 |its|st [[ts rs j]|] els]; simpl;
    try reflexivity; now rewrite app_nil_r.
Qed.

Lemma add_runs_takes_text (e : MarkdownElement) (rs : list (str * Style)) :
  takes_text (add_runs e rs) = takes_text e.
Proof.
  destruct e as [|st [tx|]|l [tx|]|st [tx|]|els| |its|st [tx|] els];
    reflexivity.
Qed.

Lemma context_on_text_adds (ctx : MarkdownContext) (s : str)
    (top : MarkdownElement) (rest : list MarkdownElement) :
  stack ctx = top :: rest ->
  takes_text top = true ->
  context_on_text ctx s
  = Ok (with_stack ctx (add_runs top [(s, current_style ctx)] :: rest)).
Proof.
  intros Hs Ht. unfold context_on_text, set_top. rewrite Hs.
  rewrite (on_text_adds ctx top s Ht). reflexivity.
Qed.

Lemma forest_writes_runs (none : Style) (cs : list Tree) :
  Forall (fun tr => inline_tree tr = true -> writes_runs none tr) cs ->
  forallb inline_tree cs = true ->
  forall w top rest,
    stack (context w) = top :: rest ->
    takes_text top = true ->
    exists w',
      run (walker cs) w = Ok (w', [])
      /\ stack (context w')
         = add_runs top
             (flat_map (span_runs none (current_style (context w))) cs)
             :: rest
      /\ style_stack (context w') = style_stack (context w)
      /\ options (context w') = options (context w)
      /\ pending_new_line w' = pending_new_line w.
Proof.
  unfold walker.
  induction 1 as [|c cs Hc _ IH]; cbn [forallb flat_map];
    intros Hall w top rest Hs Ht.
  - exists w. rewrite add_runs_nil. auto.
  - apply andb_prop in Hall as [Hin Hall].
    destruct (Hc Hin w top rest Hs Ht) as (w1 & H1 & Hs1 & Hst1 & Ho1 & Hp1).
    destruct (IH Hall w1 _ rest Hs1) as (w2 & H2 & Hs2 & Hst2 & Ho2 & Hp2).
    { now rewrite add_runs_takes_text. }
    exists w2. rewrite run_app, H1; cbn. rewrite H2; cbn.
    split; [reflexivity|].
    rewrite Hs2, add_runs_app.
    unfold current_style. rewrite Hst1.
    repeat split; congruence.
Qed.

Lemma tree_writes_runs (none : Style) (tr : Tree) :
  get_style "none" = Some none ->
  inline_tree tr = true -> writes_runs none tr.
Proof.
  intros Hnone.
  induction tr as [k s|k l cs IH] using Tree_nested_ind;
    cbn [inline_tree]; intros Hin w top rest Hs Ht.
  - cbn [walk run span_runs]. unfold step; cbn [t is_container literal].
    destruct (k =? "text")%string.
    { rewrite (context_on_text_adds _ s Hs Ht). cbn.
      eexists; split; [reflexivity|]. cbn. auto. }
    destruct (k =? "softbreak")%string.
    { rewrite (context_on_text_adds _ [NEWLINE] Hs Ht). cbn.
      eexists; split; [reflexivity|]. cbn. auto. }
    cbn in Hin. rewrite Hin.
    unfold step_inline; cbn [is_container literal t].
    rewrite (enter_style_Ok _ _ Hnone); cbn [bind].
    destruct (truthy s).
    + erewrite context_on_text_adds; [|exact Hs|exact Ht]. cbn [bind].
      unfold leave_style, StyleStack_pop; cbn.
      eexists; split; [reflexivity|]. cbn.
      destruct (context w) as [o [d en] st]; cbn in *. auto.
    + unfold leave_style, StyleStack_pop; cbn.
      eexists; split; [reflexivity|]. cbn.
      rewrite add_runs_nil.
      destruct (context w) as [o [d en] st]; cbn in *. auto.
  - apply andb_prop in Hin as [Hk Hcs].
    destruct (inlines_not_text _ Hk) as [Hnt Hns].
    cbn [walk run span_runs]. unfold step at 1; cbn [t is_container literal].
    rewrite Hnt, Hns, Hk.
    unfold step_inline; cbn [is_container t].
    rewrite (enter_style_Ok _ _ Hnone); cbn [bind].
    set (w1 := mkWalk _ _).
    destruct (@forest_writes_runs none cs IH Hcs w1 top rest Hs Ht)
      as (w2 & H2 & Hs2 & Hst2 & Ho2 & Hp2).
    rewrite run_app. unfold walker in H2. rewrite H2; cbn [bind].
    cbn [run]. unfold step; cbn [t is_container literal].
    rewrite Hnt, Hns, Hk.
    unfold step_inline; cbn [is_container t].
    destruct (@leave_after_push (context w2) (style_stack (context w))
                (resolved none ("markdown." ++ k)%string))
      as (c3 & -> & Hs3 & Ho3 & Hst3); [rewrite Hst2; reflexivity|].
    cbn. eexists; split; [reflexivity|]. cbn.
    rewrite Hs3, Hs2, Ho3, Ho2, Hp2. auto.
Qed.

(** X9.  Text goes to the element on top of the stack, in the style
    current where it stands.  In a registry that has [none], the events
    of inline spans and of the text and soft breaks in them, under an
    element that takes text, yield nothing, leave the style stack as it
    was, and add to the text of that element, in document order: each
    text and, for each soft break, a newline, in the current style, and
    what stands in a span in the style of the span layered over it. *)
Theorem text_is_written_to_the_open_element
    (none : Style) (forest : list Tree) (w : Walk)
    (top : MarkdownElement) (rest : list MarkdownElement)
    (Hnone : get_style "none" = Some none)
    (Hinline : forallb inline_tree forest = true)
    (Hstack : stack (context w) = top :: rest)
    (Htop : takes_text top = true) :
  exists w',
    run (walker forest) w = Ok (w', [])
    /\ stack (context w')
       = add_runs top
           (flat_map (span_runs none (current_style (context w))) forest)
           :: rest
    /\ style_stack (context w') = style_stack (context w)
    /\ options (context w') = options (context w)
    /\ pending_new_line w' = pending_new_line w.
Proof.
  apply (@forest_writes_runs none forest); try assumption.
  apply Forall_forall. intros tr _. apply tree_writes_runs. exact Hnone.
Qed.

(** *** Code blocks and headings *)

Lemma lstrip_spec (l : str) :
  exists ws, l = ws ++ lstrip l /\ Forall (fun c => is_space c = true) ws.
Proof.
  induction l as [|c l (ws & E & Hws)]; simpl.
  - exists []. auto.
  - destruct (is_space c) eqn:Hc.
    + exists (c :: ws). split; [simpl; congruence|]. now constructor.
    + exists []. auto.
Qed.

Lemma lstrip_head (l : str) (c : N) (r : str) :
  lstrip l = c :: r -> is_space c = false.
Proof.
  induction l as [|x l IH]; simpl; [discriminate|].
  destruct (is_space x) eqn:Hx; [exact IH|].
  intros H; injection H as <- _. exact Hx.
Qed.

(** X10.  A code block is a leaf: at its visit its literal, if it has
    one, is added to a fresh text with the whitespace at its end taken
    off, in the style of code blocks layered over the current one, and
    that text is rendered after the pending blank line; the stacks are
    left as they were and a blank line is pending afterwards.  What is
    taken off the literal is whitespace only, and what is kept does not
    end with whitespace. *)
Theorem code_block_keeps_stripped_literal
    (none : Style) (w : Walk) (s : str) (l : Z)
    (Hnone : get_style "none" = Some none) :
  let style :=
    combine (current_style (context w)) (resolved none "markdown.code_block") in
  let text :=
    mkText style (if truthy s then [(rstrip s, style)] else []) None in
  (exists w',
      step w (mkNode "code_block" false s l, true)
      = Ok (w', separator (pending_new_line w)
                  ++ render_text (options (context w)) text)
      /\ stack (context w') = stack (context w)
      /\ style_stack (context w') = style_stack (context w)
      /\ pending_new_line w' = true)
  /\ (exists ws,
        s = rstrip s ++ ws /\ Forall (fun c => is_space c = true) ws)
  /\ (forall pre c, rstrip s = pre ++ [c] -> is_space c = false).
Proof.
  intros style text. split; [|split].
  - subst text style. unfold step, step_leaf; cbn.
    unfold TextElement_on_enter.
    rewrite (enter_style_Ok _ _ Hnone); cbn.
    destruct (context w) as [o [d en] st]; cbn.
    destruct (truthy s); cbn; rewrite app_nil_r;
      eexists; (split; [reflexivity|]); cbn; auto.
  - destruct (lstrip_spec (rev s)) as (ws & E & Hws).
    exists (rev ws). split.
    + unfold rstrip. rewrite <- rev_app_distr, <- E. now rewrite rev_involutive.
    + now apply Forall_rev.
  - intros pre c E. unfold rstrip in E.
    apply (f_equal (@rev N)) in E.
    rewrite rev_involutive, rev_app_distr in E. cbn in E.
    eapply lstrip_head; eassumption.
Qed.

(** X11.  The document of one heading that holds one text, in a
    registry that has [none]: the walker yields the rendering of that
    text, justified to the center, within a panel when the level is 1
    and as it is otherwise, with no blank line before it.  The text has
    the style that was current before the heading was entered, and its
    run the style [markdown.h] followed by the level, layered over it. *)
Theorem heading_document_renders
    (none : Style) (l : Z) (s : str) (o : ConsoleOptions)
    (Hnone : get_style "none" = Some none) :
  let style :=
    combine console_current_style (resolved none (heading_style_name l)) in
  let text := mkText console_current_style [(s, style)] (Some "center") in
  Markdown_console (heading_document l s) o
  = Ok (if (l =? 1)%Z
        then render_panel o (mkPanel text DOUBLE_BORDER "markdown.h1.border")
        else render_text o text).
Proof.
  intros style text. subst text style.
  unfold Markdown_console, heading_document.
  walk_through Hnone.
  unfold Heading_console.
  destruct (l =? 1)%Z; cbn -[resolved]; rewrite !app_nil_r; reflexivity.
Qed.

(** *** Lists *)

Lemma list_render_Ok (its : list MarkdownElement) (o : ConsoleOptions) :
  forallb entered_item its = true ->
  console_render (ListElement its) o = Ok (flat_map (bullet_of o) its).
Proof.
  intros H. unfold console_render. cbn [console_].
  rewrite (render_bullets_Ok its o H); cbn.
  now rewrite <- flat_map_concat_map, render_segments.
Qed.

(** The items of a list, one after the other, end up collected by the
    list that is on top of the stack, and nothing is yielded. *)
Lemma items_are_collected (none : Style) (ss : list str) :
  get_style "none" = Some none ->
  forall o d en its rest p,
    run (walker (map item_of ss))
      (mkWalk (mkContext o (mkStyleStack d en) (ListElement its :: rest)) p)
    = Ok (mkWalk
            (mkContext o (mkStyleStack d en)
               (ListElement
                  (its ++ map (item_element none
                                 (StyleStack_current (mkStyleStack d en))) ss)
                  :: rest))
            (match ss with [] => p | _ => true end),
          []).
Proof.
  intros Hnone.
  induction ss as [|s ss IH]; intros o d en its rest p; cbn [map].
  - cbn. now rewrite app_nil_r.
  - rewrite walker_cons, run_app.
    assert (H1 : run (walk (item_of s))
                   (mkWalk (mkContext o (mkStyleStack d en)
                              (ListElement its :: rest)) p)
                 = Ok (mkWalk
                         (mkContext o (mkStyleStack d en)
                            (ListElement
                               (its ++ [item_element none
                                          (StyleStack_current
                                             (mkStyleStack d en)) s])
                               :: rest)) true, [])).
    { unfold item_of, paragraph_of. walk_through Hnone. reflexivity. }
    rewrite H1; cbn [bind]. rewrite IH; cbn [bind app].
    rewrite <- app_assoc. destruct ss; reflexivity.
Qed.

(** X12.  The document of one list whose items hold one paragraph of
    one text each, in a registry that has [none].  The list collects the
    items and each item its paragraph, nothing being yielded on the way;
    when the list leaves, the walker yields the bullet forms of the
    items in their order, each laid out in the style of items layered
    over the console's, after one blank-line segment if the list has an
    item and none if it is empty. *)
Theorem list_document_renders
    (none : Style) (ss : list str) (o : ConsoleOptions)
    (Hnone : get_style "none" = Some none) :
  Markdown_console (list_document ss) o
  = Ok (match ss with [] => [] | _ => [segment_nl] end
          ++ flat_map (bullet_of o)
               (map (item_element none console_current_style) ss)).
Proof.
  unfold Markdown_console, list_document.
  set (doc := mkNode "document" true [] 0).
  set (lst := mkNode "list" true [] 0).
  assert (Hev : walk (Container "document" 0
                        [Container "list" 0 (map item_of ss)])
                = [(doc, true); (lst, true)]
                    ++ walker (map item_of ss)
                    ++ [(lst, false); (doc, false)]).
  { cbn [walk flat_map app]. rewrite app_nil_r. cbn [app].
    now rewrite <- app_assoc. }
  rewrite Hev, !run_app.
  assert (H1 : run [(doc, true); (lst, true)] (Walk_init o)
               = Ok (mkWalk
                       (mkContext o (mkStyleStack console_current_style [])
                          [ListElement []; UnknownElement]) false, [])).
  { subst doc lst. walk_through Hnone. reflexivity. }
  rewrite H1; cbn [bind]. rewrite run_app.
  rewrite (items_are_collected ss Hnone); cbn [bind app].
  assert (Hitems : forallb entered_item
                     (map (item_element none console_current_style) ss)
                   = true).
  { rewrite forallb_forall. intros x Hx. apply in_map_iff in Hx as (s & <- & _).
    reflexivity. }
  subst doc lst. cbn [run]. unfold step at 1; cbn -[console_render].
  unfold step_leave; cbn -[console_render].
  rewrite (list_render_Ok _ o Hitems); cbn.
  rewrite !app_nil_r. destruct ss; reflexivity.
Qed.

(** *** Block quotes *)

Lemma paragraphs_are_collected (none : Style) (ss : list str) :
  get_style "none" = Some none ->
  forall o d en els rest p,
    run (walker (map paragraph_of ss))
      (mkWalk (mkContext o (mkStyleStack d en) (BlockQuote els :: rest)) p)
    = Ok (mkWalk
            (mkContext o (mkStyleStack d en)
               (BlockQuote
                  (els ++ map (paragraph_element none
                                 (StyleStack_current (mkStyleStack d en))) ss)
                  :: rest))
            (match ss with [] => p | _ => true end),
          []).
Proof.
  intros Hnone.
  induction ss as [|s ss IH]; intros o d en els rest p; cbn [map].
  - cbn. now rewrite app_nil_r.
  - rewrite walker_cons, run_app.
    assert (H1 : run (walk (paragraph_of s))
                   (mkWalk (mkContext o (mkStyleStack d en)
                              (BlockQuote els :: rest)) p)
                 = Ok (mkWalk
                         (mkContext o (mkStyleStack d en)
                            (BlockQuote
                               (els ++ [paragraph_element none
                                          (StyleStack_current
                                             (mkStyleStack d en)) s])
                               :: rest)) true, [])).
    { unfold paragraph_of. walk_through Hnone. reflexivity. }
    rewrite H1; cbn [bind]. rewrite IH; cbn [bind app].
    rewrite <- app_assoc. destruct ss; reflexivity.
Qed.

Lemma paragraphs_render (none cur : Style) (ss : list str)
    (o : ConsoleOptions) :
  console_render (BlockQuote (map (paragraph_element none cur) ss)) o
  = Ok (flat_map (fun s => render_text o (paragraph_text none cur s)) ss).
Proof.
  unfold console_render. cbn [console_].
  assert (H : mapM (fun element => console_ element o)
                (map (paragraph_element none cur) ss)
              = Ok (map (fun s => [RText (paragraph_text none cur s)]) ss)).
  { induction ss as [|s ss IH]; cbn; [reflexivity|]. now rewrite IH. }
  rewrite H; cbn [bind]. f_equal. clear H.
  induction ss as [|s ss IH]; [reflexivity|].
  cbn [map List.concat app flat_map render_item]. now rewrite IH.
Qed.

(** X13.  The document of one block quote of any number of paragraphs
    of one text each, in a registry that has [none].  Nothing is yielded
    before the quote leaves; then the walker yields the paragraphs'
    texts one after the other, in their order and with nothing between
    them, each in the style of paragraphs layered over that of block
    quotes and the console's, after one blank-line segment if the quote
    holds a paragraph and none if it is empty. *)
Theorem quote_document_renders
    (none : Style) (ss : list str) (o : ConsoleOptions)
    (Hnone : get_style "none" = Some none) :
  let quote_style :=
    combine console_current_style (resolved none "markdown.block_quote") in
  Markdown_console (quote_document ss) o
  = Ok (match ss with [] => [] | _ => [segment_nl] end
          ++ flat_map
               (fun s => render_text o (paragraph_text none quote_style s))
               ss).
Proof.
  intros quote_style. subst quote_style.
  unfold Markdown_console, quote_document.
  set (doc := mkNode "document" true [] 0).
  set (bq := mkNode "block_quote" true [] 0).
  assert (Hev : walk (Container "document" 0
                        [Container "block_quote" 0 (map paragraph_of ss)])
                = [(doc, true); (bq, true)]
                    ++ walker (map paragraph_of ss)
                    ++ [(bq, false); (doc, false)]).
  { cbn [walk flat_map app]. rewrite app_nil_r. cbn [app].
    now rewrite <- app_assoc. }
  rewrite Hev, run_app.
  assert (H1 : run [(doc, true); (bq, true)] (Walk_init o)
               = Ok (mkWalk
                       (mkContext o
                          (mkStyleStack console_current_style
                             [resolved none "markdown.block_quote"])
                          [BlockQuote []; UnknownElement]) false, [])).
  { subst doc bq. walk_through Hnone. reflexivity. }
  rewrite H1; cbn [bind]. rewrite run_app.
  rewrite (paragraphs_are_collected ss Hnone); cbn [bind app].
  subst doc bq. cbn [run]. unfold step at 1; cbn -[console_render resolved].
  unfold step_leave; cbn -[console_render resolved].
  rewrite paragraphs_render; cbn -[resolved].
  rewrite !app_nil_r. destruct ss; reflexivity.
Qed.

(** *** Heading styles *)


(** *** Paragraphs under the document *)

Lemma paragraphs_are_flushed (none : Style) (ss : list str) :
  get_style "none" = Some none ->
  forall o d en rest,
    run (walker (map paragraph_of ss))
      (mkWalk (mkContext o (mkStyleStack d en) (UnknownElement :: rest)) true)
    = Ok (mkWalk (mkContext o (mkStyleStack d en) (UnknownElement :: rest))
            true,
          flat_map
            (fun s =>
               segment_nl
                 :: render_text o
                      (paragraph_text none
                         (StyleStack_current (mkStyleStack d en)) s))
            ss).
Proof.
  intros Hnone.
  induction ss as [|s ss IH]; intros o d en rest; cbn [map flat_map].
  - reflexivity.
  - rewrite walker_cons, run_app.
    assert (H1 : run (walk (paragraph_of s))
                   (mkWalk (mkContext o (mkStyleStack d en)
                              (UnknownElement :: rest)) true)
                 = Ok (mkWalk (mkContext o (mkStyleStack d en)
                                 (UnknownElement :: rest)) true,
                       segment_nl
                         :: render_text o
                              (paragraph_text none
                                 (StyleStack_current (mkStyleStack d en)) s))).
    { unfold paragraph_of. walk_through Hnone. now rewrite !app_nil_r. }
    rewrite H1; cbn [bind]. rewrite IH; cbn [bind]. reflexivity.
Qed.

(** X15.  The document of any number of paragraphs of one text each,
    in a registry that has [none]: the walker yields the text of each
    paragraph as the paragraph leaves, in their order, with exactly one
    blank-line segment between one and the next, none before the first
    and none after the last. *)
Theorem paragraphs_are_spaced
    (none : Style) (ss : list str) (o : ConsoleOptions)
    (Hnone : get_style "none" = Some none) :
  let rendered s :=
    render_text o (paragraph_text none console_current_style s) in
  Markdown_console (Container "document" 0 (map paragraph_of ss)) o
  = Ok match ss with
       | [] => []
       | s :: rest =>
           rendered s ++ flat_map (fun s' => segment_nl :: rendered s') rest
       end.
Proof.
  intros rendered. subst rendered. unfold Markdown_console.
  destruct ss as [|s ss].
  - walk_through Hnone. reflexivity.
  - set (doc := mkNode "document" true [] 0).
    assert (Hev : walk (Container "document" 0
                          (map paragraph_of (s :: ss)))
                  = ((doc, true) :: walk (paragraph_of s))
                      ++ walker (map paragraph_of ss)
                      ++ [(doc, false)]).
    { cbn [walk flat_map map app]. unfold walker.
      now rewrite <- !app_assoc. }
    rewrite Hev, run_app.
    assert (H1 : run ((doc, true) :: walk (paragraph_of s)) (Walk_init o)
                 = Ok (mkWalk
                         (mkContext o (mkStyleStack console_current_style [])
                            [UnknownElement]) true,
                       render_text o
                         (paragraph_text none console_current_style s))).
    { subst doc. unfold paragraph_of. walk_through Hnone.
      now rewrite !app_nil_r. }
    rewrite H1; cbn [bind]. rewrite run_app.
    rewrite (paragraphs_are_flushed ss Hnone); cbn [bind].
    subst doc. cbn -[paragraph_text]. now rewrite !app_nil_r.
Qed.

End Markdown.




(** ** The properties on the demo console *)

Local Abbreviation demo_run :=
  (run Demo.get_style Demo.combine Demo.render_text Demo.render_panel
     Demo.render_lines Demo.allocates).
Local Abbreviation demo_step :=
  (step Demo.get_style Demo.combine Demo.render_text Demo.render_panel
     Demo.render_lines Demo.allocates).
Local Abbreviation demo_init := (Walk_init Demo.current_style Demo.o20).
Local Abbreviation demo_text s :=
  (fun style : Demo.Style => mkText style [(lit s, style)] None).

Lemma enter_style_resolves_and_pushes_witness :
  Demo.get_style "none" = Some []
  /\ Demo.get_style "no.such.style" = None
  /\ exists ctx',
       enter_style Demo.get_style Demo.combine
         (MarkdownContext_init Demo.current_style Demo.o20) "no.such.style"
       = Ok (ctx', [])
       /\ entered (style_stack ctx') = [[]].
Proof.
  split; [reflexivity|]. split; [reflexivity|].
  destruct (@enter_style_resolves_and_pushes _ Demo.get_style Demo.combine
              (MarkdownContext_init Demo.current_style Demo.o20)
              "no.such.style" [] eq_refl) as (H & _ & _ & He & _).
  eexists; split; [exact H|exact He].
Defined.

Lemma horizontal_rule_one_segment_witness :
  fits Demo.allocates (max_width (mkOptions 4)) = true
  /\ console_render Demo.get_style Demo.render_text Demo.render_panel
       Demo.render_lines Demo.allocates HorizontalRule (mkOptions 4)
     = Ok [mkSegment [RULE; RULE; RULE; RULE; NEWLINE]
             (Some ["markdown.hr"])]
  /\ INDEX_MAX < max_width (mkOptions (2 ^ 63))
  /\ console_render Demo.get_style Demo.render_text Demo.render_panel
       Demo.render_lines Demo.allocates HorizontalRule (mkOptions (2 ^ 63))
     = Raise OverflowError
  /\ fits Demo.allocates (max_width (options (context demo_init))) = true
  /\ exists w',
       demo_step demo_init (mkNode "thematic_break" false [] 0, true)
       = Ok (w', [mkSegment (repeat RULE 20 ++ [NEWLINE])
                    (Some ["markdown.hr"])])
       /\ pending_new_line w' = false.
Proof.
  assert (Hfits : fits Demo.allocates (max_width (mkOptions 4)) = true)
    by reflexivity.
  assert (Hover : INDEX_MAX < max_width (mkOptions (2 ^ 63)))
    by reflexivity.
  assert (Hinit : fits Demo.allocates
                    (max_width (options (context demo_init))) = true)
    by reflexivity.
  split; [exact Hfits|]. split.
  { exact (proj2 (proj2 (proj1 (@horizontal_rule_one_segment _
                                  Demo.get_style Demo.combine
                                  Demo.render_text Demo.render_panel
                                  Demo.render_lines Demo.allocates
                                  (mkOptions 4)) Hfits))). }
  split; [exact Hover|]. split.
  { exact (proj2 (proj1 (proj2 (@horizontal_rule_one_segment _
                                  Demo.get_style Demo.combine
                                  Demo.render_text Demo.render_panel
                                  Demo.render_lines Demo.allocates
                                  (mkOptions (2 ^ 63))))
                   (or_intror Hover))). }
  split; [exact Hinit|].
  destruct (@horizontal_rule_one_segment _ Demo.get_style Demo.combine
              Demo.render_text Demo.render_panel Demo.render_lines
              Demo.allocates Demo.o20)
    as (_ & _ & _ & _ & _ & _ & Hwalk).
  destruct (Hwalk demo_init [] 0 Hinit) as (w' & Hstep & Hpending & _).
  exists w'. split; [exact Hstep|exact Hpending].
Defined.

(** C3, as stated, fails in three ways.  At a negative width: the rule
    rendered at the width -1 is its newline alone, after a body that has
    no character, not -1 of them.  At a width that is no machine index:
    at the width 2^63 the rule renders no segment, it raises
    [OverflowError].  And a blank line can come before the next element:
    in the document of a rule and a block quote of one paragraph, the
    paragraph absorbed by the quote turns the walker's [new_line] on
    again, and the quote is rendered after a newline segment. *)
Lemma horizontal_rule_counterexamples :
  (console_ Demo.get_style Demo.render_lines Demo.allocates HorizontalRule
     (mkOptions (-1))
   = Ok [RSegment (mkSegment [NEWLINE] (Some ["markdown.hr"]))]
   /\ ~ (exists body : str,
           [NEWLINE] = body ++ [NEWLINE]
           /\ len body = max_width (mkOptions (-1))))
  /\ console_ Demo.get_style Demo.render_lines Demo.allocates HorizontalRule
       (mkOptions (2 ^ 63))
     = Raise OverflowError
  /\ Markdown_console Demo.get_style Demo.current_style Demo.combine
       Demo.render_text Demo.render_panel Demo.render_lines Demo.allocates
       (Container "document" 0
          [Leaf "thematic_break" [];
           Container "block_quote" 0 [paragraph_of (lit "a")]])
       (mkOptions 2)
     = Ok [mkSegment [RULE; RULE; NEWLINE] (Some ["markdown.hr"]);
           mkSegment [NEWLINE] None;
           mkSegment (lit "a")
             (Some ["markdown.block_quote"; "markdown.paragraph";
                    "markdown.block_quote"; "markdown.paragraph"])].
Proof.
  split; [|split; reflexivity].
  split; [reflexivity|].
  intros (body & _ & Hlen). unfold len in Hlen. simpl in Hlen. lia.
Qed.

Lemma heading_panel_iff_level_one_witness :
  console_ Demo.get_style Demo.render_lines Demo.allocates
    (Heading 1 (Some (demo_text "Title" ["markdown.h1"]))) Demo.o20
  = Ok [RPanel (mkPanel (mkText ["markdown.h1"]
                           [(lit "Title", ["markdown.h1"])] (Some "center"))
                  DOUBLE_BORDER "markdown.h1.border")]
  /\ console_ Demo.get_style Demo.render_lines Demo.allocates
       (Heading 2 (Some (demo_text "Title" ["markdown.h2"]))) Demo.o20
     = Ok [RText (mkText ["markdown.h2"]
                    [(lit "Title", ["markdown.h2"])] (Some "center"))].
Proof.
  split.
  - destruct (@heading_panel_iff_level_one _ Demo.get_style Demo.combine
                Demo.render_text Demo.render_panel Demo.render_lines
                Demo.allocates 1
                (demo_text "Title" ["markdown.h1"]) Demo.o20)
      as (_ & _ & _ & H & _).
    exact (proj1 (H eq_refl)).
  - destruct (@heading_panel_iff_level_one _ Demo.get_style Demo.combine
                Demo.render_text Demo.render_panel Demo.render_lines
                Demo.allocates 2
                (demo_text "Title" ["markdown.h2"]) Demo.o20)
      as (_ & _ & _ & _ & H & _).
    refine (proj1 (H _)). discriminate.
Defined.

Lemma list_item_bullet_lines_witness :
  render_bullet Demo.render_lines
    (ListItem (Some ["markdown.item"]) None
       [Paragraph None (Some (demo_text "foo" ["p"]));
        Paragraph None (Some (demo_text "bar" ["p"]))])
    (mkOptions 10)
  = Ok [mkSegment [SPACE; BULLET; SPACE] None;
        mkSegment (lit "foo") (Some ["p"; "p"]);
        mkSegment [NEWLINE] None;
        mkSegment [SPACE; SPACE; SPACE] None;
        mkSegment (lit "bar") (Some ["p"; "p"]);
        mkSegment [NEWLINE] None].
Proof.
  exact (proj1 (proj2 (@list_item_bullet_lines _ Demo.get_style Demo.combine
                         Demo.render_lines
                         ["markdown.item"] None
                         [Paragraph None (Some (demo_text "foo" ["p"]));
                          Paragraph None (Some (demo_text "bar" ["p"]))]
                         (mkOptions 10)))).
Defined.

Lemma degenerate_width_is_defined_witness :
  max_width (mkOptions (-2)) <= 0
  /\ INDEX_MIN <= max_width (mkOptions (-2))
  /\ console_ Demo.get_style Demo.render_lines Demo.allocates HorizontalRule
       (mkOptions (-2))
     = Ok [RSegment (mkSegment [NEWLINE] (Some ["markdown.hr"]))]
  /\ exists out,
       Markdown_console Demo.get_style Demo.current_style Demo.combine
         Demo.render_text Demo.render_panel Demo.render_lines Demo.allocates
         (Container "document" 0
            [Container "heading" 1 [Leaf "text" (lit "T")];
             Leaf "thematic_break" [];
             Container "list" 0
               [Container "item" 0 [paragraph_of (lit "a")]]])
         (mkOptions (-2))
       = Ok out.
Proof.
  assert (H : max_width (mkOptions (-2)) <= 0) by (simpl; lia).
  assert (Hlow : INDEX_MIN <= max_width (mkOptions (-2)))
    by (intros Hgt; discriminate Hgt).
  split; [exact H|]. split; [exact Hlow|].
  destruct (proj1 (@degenerate_width_is_defined _ Demo.get_style
                     Demo.current_style Demo.combine Demo.render_text
                     Demo.render_panel Demo.render_lines Demo.allocates
                     (mkOptions (-2)) H) Hlow)
    as (_ & Hrule & _ & _ & Hdoc).
  split; [exact Hrule|].
  exact (Hdoc []
           (Container "document" 0
              [Container "heading" 1 [Leaf "text" (lit "T")];
               Leaf "thematic_break" [];
               Container "list" 0
                 [Container "item" 0 [paragraph_of (lit "a")]]])
           eq_refl eq_refl).
Defined.

(** C8, as stated, fails at a width below the machine indices: at the
    width -2^63 - 1, which is less than zero, the rule gives no result,
    it raises [OverflowError]. *)
Lemma rule_below_index_range_raises :
  max_width (mkOptions (- 2 ^ 63 - 1)) <= 0
  /\ console_ Demo.get_style Demo.render_lines Demo.allocates HorizontalRule
       (mkOptions (- 2 ^ 63 - 1))
     = Raise OverflowError
  /\ console_render Demo.get_style Demo.render_text Demo.render_panel
       Demo.render_lines Demo.allocates HorizontalRule
       (mkOptions (- 2 ^ 63 - 1))
     = Raise OverflowError.
Proof.
  split; [intros Hgt; discriminate Hgt|]. split; reflexivity.
Qed.

Lemma block_quote_absorbs_paragraphs_witness :
  Demo.get_style "none" = Some []
  /\ Markdown_console Demo.get_style Demo.current_style Demo.combine
       Demo.render_text Demo.render_panel Demo.render_lines Demo.allocates
       (quote_then_paragraph (lit "a") (lit "b") (lit "c")) Demo.o20
     = Ok [mkSegment [NEWLINE] None;
           mkSegment (lit "a")
             (Some ["markdown.block_quote"; "markdown.paragraph";
                    "markdown.block_quote"; "markdown.paragraph"]);
           mkSegment (lit "b")
             (Some ["markdown.block_quote"; "markdown.paragraph";
                    "markdown.block_quote"; "markdown.paragraph"]);
           mkSegment [NEWLINE] None;
           mkSegment (lit "c")
             (Some ["markdown.paragraph"; "markdown.paragraph"])].
Proof.
  split; [reflexivity|].
  exact (proj2 (proj2 (@block_quote_absorbs_paragraphs _ Demo.get_style
                         Demo.current_style Demo.combine Demo.render_text
                         Demo.render_panel Demo.render_lines Demo.allocates
                         (lit "a") (lit "b") (lit "c") Demo.o20 []
                         eq_refl))).
Defined.

Lemma unknown_kind_is_no_error_witness :
  elements_get "html_block" = None
  /\ element_kind "html_block" = true
  /\ exists w',
       demo_step demo_init (mkNode "html_block" false (lit "<hr>") 0, true)
       = Ok (w', []).
Proof.
  split; [reflexivity|]. split; [reflexivity|].
  destruct (@unknown_kind_is_no_error _ Demo.get_style Demo.combine
              Demo.render_text Demo.render_panel Demo.render_lines
              Demo.allocates
              (mkNode "html_block" false (lit "<hr>") 0) demo_init
              eq_refl eq_refl) as (_ & _ & _ & _ & _ & H & _).
  destruct (H eq_refl true) as (w' & Hstep & _).
  exists w'. exact Hstep.
Defined.

Lemma unknown_container_flushes_children_witness :
  elements_get "document" = None
  /\ element_kind "document" = true
  /\ exists w' out,
       demo_run
         (walk (Container "document" 0
                  [paragraph_of (lit "a"); paragraph_of (lit "b")]))
         demo_init
       = Ok (w', out)
       /\ forall ctx child,
            on_child_close ctx (@UnknownElement Demo.Style) child
            = (UnknownElement, true).
Proof.
  split; [reflexivity|]. split; [reflexivity|].
  eassert (Hrun : demo_run
                    (walk (Container "document" 0
                             [paragraph_of (lit "a"); paragraph_of (lit "b")]))
                    demo_init
                  = Ok (_, _)) by (vm_compute; reflexivity).
  do 2 eexists. split; [exact Hrun|].
  exact (proj1 (@unknown_container_flushes_children _ Demo.get_style
                  Demo.combine Demo.render_text Demo.render_panel
                  Demo.render_lines Demo.allocates "document" 0 _ _ _ _
                  eq_refl eq_refl Hrun)).
Defined.

(** C10, as stated, fails on a paragraph that holds a link: the link is
    a container of no registered kind, and its child, a text, is left
    out.  Its events yield nothing and leave the paragraph as it was, and
    the document renders as the blank line pending after the link and the
    empty paragraph. *)
Lemma unknown_container_drops_text :
  elements_get "link" = None
  /\ element_kind "link" = true
  /\ demo_run (walk Demo.link)
       (mkWalk (Stack_push (context demo_init) Demo.open_paragraph) false)
     = Ok (mkWalk (Stack_push (context demo_init) Demo.open_paragraph) true,
           [])
  /\ Markdown_console Demo.get_style Demo.current_style Demo.combine
       Demo.render_text Demo.render_panel Demo.render_lines Demo.allocates
       Demo.link_document Demo.o20
     = Ok [mkSegment [NEWLINE] None].
Proof. repeat split; vm_compute; reflexivity. Qed.

Lemma inline_spans_keep_the_stacks_witness :
  forallb inline_tree Demo.spans = true
  /\ exists w',
       demo_run (walker Demo.spans)
         (mkWalk (Stack_push (context demo_init) Demo.open_paragraph) false)
       = Ok (w', [])
       /\ style_stack (context w') = style_stack (context demo_init).
Proof.
  split; [reflexivity|].
  destruct (@inline_spans_keep_the_stacks _ Demo.get_style Demo.combine
              Demo.render_text Demo.render_panel Demo.render_lines
              Demo.allocates
              Demo.spans
              (mkWalk (Stack_push (context demo_init) Demo.open_paragraph)
                 false)
              eq_refl) as (_ & Hok & Hafter & _).
  destruct (Hok [] eq_refl eq_refl) as (w' & Hrun).
  exists w'. split; [exact Hrun|].
  exact (proj1 (Hafter w' [] Hrun)).
Defined.

Lemma traversal_balances_the_stacks_witness :
  forallb (shaped false false)
    [quote_then_paragraph (lit "a") (lit "b") (lit "c")] = true
  /\ fits Demo.allocates (max_width (options (context demo_init))) = true
  /\ exists w' out,
       demo_run (walker [quote_then_paragraph (lit "a") (lit "b") (lit "c")])
         demo_init
       = Ok (w', out)
       /\ stack (context w') = []
       /\ entered (style_stack (context w')) = [].
Proof.
  split; [reflexivity|]. split; [reflexivity|].
  destruct (@traversal_balances_the_stacks _ Demo.get_style
              Demo.current_style Demo.combine
              Demo.render_text Demo.render_panel Demo.render_lines
              Demo.allocates
              [quote_then_paragraph (lit "a") (lit "b") (lit "c")]
              demo_init) as (_ & Hok & Hafter).
  destruct (Hok [] false false eq_refl eq_refl) as (w' & out & Hrun);
    [split; [reflexivity|]; split; discriminate|reflexivity|].
  exists w', out. split; [exact Hrun|].
  destruct (Hafter w' out Hrun) as (_ & _ & _ & _ & H & _).
  exact (H Demo.o20 eq_refl).
Defined.

(** The shape asked of the trees is needed: a text with no element open,
    and a text directly in a block quote, which has no [text], raise. *)
Example text_with_no_element_raises :
  Markdown_console Demo.get_style Demo.current_style Demo.combine
    Demo.render_text Demo.render_panel Demo.render_lines Demo.allocates
    (Leaf "text" (lit "a")) Demo.o20
  = Raise IndexError.
Proof. reflexivity. Qed.

Example text_in_block_quote_raises :
  Markdown_console Demo.get_style Demo.current_style Demo.combine
    Demo.render_text Demo.render_panel Demo.render_lines Demo.allocates
    (Container "document" 0
       [Container "block_quote" 0 [Leaf "text" (lit "a")]]) Demo.o20
  = Raise AttributeError.
Proof. reflexivity. Qed.

(** ** The further properties on the demo console *)

Local Abbreviation demo_state st en pending :=
  (mkWalk (mkContext Demo.o20 (mkStyleStack Demo.current_style en) st)
     pending).
Local Abbreviation demo_console_render :=
  (console_render Demo.get_style Demo.render_text Demo.render_panel
     Demo.render_lines Demo.allocates).
Local Abbreviation demo_markdown :=
  (Markdown_console Demo.get_style Demo.current_style Demo.combine
     Demo.render_text Demo.render_panel Demo.render_lines Demo.allocates).

Lemma walker_yields_only_at_a_close_witness :
  exists w' out,
    demo_run (walk (quote_then_paragraph (lit "a") (lit "b") (lit "c")))
      demo_init
    = Ok (w', out)
    /\ options (context w') = Demo.o20.
Proof.
  eassert (Hrun : demo_run
                    (walk (quote_then_paragraph (lit "a") (lit "b") (lit "c")))
                    demo_init
                  = Ok (_, _)) by (vm_compute; reflexivity).
  do 2 eexists. split; [exact Hrun|].
  exact (proj1 (@walker_yields_only_at_a_close _ Demo.get_style Demo.combine
                  Demo.render_text Demo.render_panel Demo.render_lines
                  Demo.allocates
                  _ _ _ _ Hrun)).
Defined.

Lemma leaf_is_rendered_at_its_visit_witness :
  exists w' out,
    demo_step
      (demo_state [BlockQuote []; UnknownElement] [["markdown.block_quote"]]
         false)
      (mkNode "code_block" false (lit "x = 1") 0, true)
    = Ok (w', out)
    /\ stack (context w') = [BlockQuote []; UnknownElement].
Proof.
  eassert (Hstep : demo_step
                     (demo_state [BlockQuote []; UnknownElement]
                        [["markdown.block_quote"]] false)
                     (mkNode "code_block" false (lit "x = 1") 0, true)
                   = Ok (_, _)) by (vm_compute; reflexivity).
  do 2 eexists. split; [exact Hstep|].
  exact (proj1 (@leaf_is_rendered_at_its_visit _ Demo.get_style Demo.combine
                  Demo.render_text Demo.render_panel Demo.render_lines
                  Demo.allocates
                  _ _ (mkNode "code_block" false (lit "x = 1") 0) true _
                  eq_refl eq_refl Hstep)).
Defined.

Lemma child_close_protocol_witness :
  exists w',
    demo_step
      (demo_state [Demo.open_paragraph; BlockQuote []; UnknownElement]
         [["markdown.paragraph"]; ["markdown.block_quote"]] false)
      (mkNode "paragraph" true [] 0, false)
    = Ok (w', [])
    /\ pending_new_line w' = true.
Proof.
  eassert (Hstep : demo_step
                     (demo_state
                        [Demo.open_paragraph; BlockQuote []; UnknownElement]
                        [["markdown.paragraph"]; ["markdown.block_quote"]]
                        false)
                     (mkNode "paragraph" true [] 0, false)
                   = Ok (_, _)) by (vm_compute; reflexivity).
  eexists. split; [exact Hstep|].
  exact (proj1 (@child_close_protocol _ Demo.get_style Demo.combine
                  Demo.render_text Demo.render_panel Demo.render_lines
                  Demo.allocates
                  (demo_state
                     [Demo.open_paragraph; BlockQuote []; UnknownElement]
                     [["markdown.paragraph"]; ["markdown.block_quote"]]
                     false)
                  _ (mkNode "paragraph" true [] 0) _
                  Demo.open_paragraph (BlockQuote []) [UnknownElement]
                  eq_refl eq_refl eq_refl Hstep)).
Defined.

Lemma top_level_close_has_no_separator_witness :
  exists w' out,
    demo_step
      (demo_state [Demo.open_paragraph] [["markdown.paragraph"]] true)
      (mkNode "paragraph" true [] 0, false)
    = Ok (w', out)
    /\ demo_console_render Demo.open_paragraph Demo.o20 = Ok out.
Proof.
  eassert (Hstep : demo_step
                     (demo_state [Demo.open_paragraph]
                        [["markdown.paragraph"]] true)
                     (mkNode "paragraph" true [] 0, false)
                   = Ok (_, _)) by (vm_compute; reflexivity).
  do 2 eexists. split; [exact Hstep|].
  destruct (@top_level_close_has_no_separator _ Demo.get_style Demo.combine
              Demo.render_text Demo.render_panel Demo.render_lines
              Demo.allocates
              (demo_state [Demo.open_paragraph] [["markdown.paragraph"]]
                 true)
              _ (mkNode "paragraph" true [] 0) _ Demo.open_paragraph
              eq_refl eq_refl eq_refl Hstep) as (_ & _ & H).
  exact H.
Defined.

Lemma block_quote_takes_no_text_witness :
  demo_step
    (demo_state [BlockQuote []; UnknownElement] [["markdown.block_quote"]]
       false)
    (mkNode "text" false (lit "a") 0, true)
  = Raise AttributeError.
Proof.
  exact (proj1 (@block_quote_takes_no_text _ Demo.get_style Demo.combine
                  Demo.render_text Demo.render_panel Demo.render_lines
                  Demo.allocates
                  (demo_state [BlockQuote []; UnknownElement]
                     [["markdown.block_quote"]] false)
                  [] [UnknownElement] (mkNode "text" false (lit "a") 0)
                  eq_refl (or_introl eq_refl))).
Defined.

Lemma list_renders_its_items_witness :
  demo_console_render (ListElement [Demo.open_paragraph]) Demo.o20
  = Raise AttributeError.
Proof.
  destruct (@list_renders_its_items _ Demo.get_style Demo.render_text
              Demo.render_panel Demo.render_lines Demo.allocates
              [Demo.open_paragraph] Demo.o20) as (_ & H).
  exact (proj2 (H eq_refl)).
Defined.

Lemma text_is_written_to_the_open_element_witness :
  exists w',
    demo_run (walker Demo.hello_world)
      (demo_state [Demo.open_paragraph] [["markdown.paragraph"]] false)
    = Ok (w', [])
    /\ stack (context w')
       = [Paragraph (Some ["markdown.paragraph"])
            (Some (mkText ["markdown.paragraph"]
                     [(lit "hello ", ["markdown.paragraph"]);
                      (lit "world", ["markdown.paragraph"; "markdown.emph"]);
                      ([NEWLINE], ["markdown.paragraph"]);
                      (lit "f", ["markdown.paragraph"; "markdown.code"])]
                     None))].
Proof.
  destruct (@text_is_written_to_the_open_element _ Demo.get_style
              Demo.combine Demo.render_text Demo.render_panel
              Demo.render_lines Demo.allocates [] Demo.hello_world
              (demo_state [Demo.open_paragraph] [["markdown.paragraph"]]
                 false)
              Demo.open_paragraph [] eq_refl eq_refl eq_refl eq_refl)
    as (w' & Hrun & Hstack & _).
  exists w'. split; [exact Hrun|exact Hstack].
Defined.

Lemma code_block_keeps_stripped_literal_witness :
  exists w',
    demo_step demo_init
      (mkNode "code_block" false (lit "x = 1  ") 0, true)
    = Ok (w', [mkSegment (lit "x = 1")
                 (Some ["markdown.code_block"; "markdown.code_block"])]).
Proof.
  destruct (@code_block_keeps_stripped_literal _ Demo.get_style Demo.combine
              Demo.render_text Demo.render_panel Demo.render_lines
              Demo.allocates
              [] demo_init (lit "x = 1  ") 0 eq_refl)
    as ((w' & Hstep & _) & _).
  exists w'. exact Hstep.
Defined.

Lemma heading_document_renders_witness :
  demo_markdown (heading_document 1 (lit "Title")) (mkOptions 10)
  = Ok [mkSegment (lit "[") None;
        mkSegment (lit "Title") (Some ["markdown.h1"]);
        mkSegment (lit "]") None].
Proof.
  exact (@heading_document_renders _ Demo.get_style Demo.current_style
           Demo.combine Demo.render_text Demo.render_panel Demo.render_lines
           Demo.allocates
           [] 1 (lit "Title") (mkOptions 10) eq_refl).
Defined.

Lemma list_document_renders_witness :
  demo_markdown (list_document [lit "foo"; lit "bar"]) (mkOptions 10)
  = Ok [mkSegment [NEWLINE] None;
        mkSegment [SPACE; BULLET; SPACE] None;
        mkSegment (lit "foo")
          (Some ["markdown.item"; "markdown.paragraph";
                 "markdown.item"; "markdown.paragraph"]);
        mkSegment [NEWLINE] None;
        mkSegment [SPACE; BULLET; SPACE] None;
        mkSegment (lit "bar")
          (Some ["markdown.item"; "markdown.paragraph";
                 "markdown.item"; "markdown.paragraph"]);
        mkSegment [NEWLINE] None].
Proof.
  exact (@list_document_renders _ Demo.get_style Demo.current_style
           Demo.combine Demo.render_text Demo.render_panel Demo.render_lines
           Demo.allocates
           [] [lit "foo"; lit "bar"] (mkOptions 10) eq_refl).
Defined.

Lemma quote_document_renders_witness :
  demo_markdown (quote_document [lit "a"; lit "b"; lit "c"]) Demo.o20
  = Ok [mkSegment [NEWLINE] None;
        mkSegment (lit "a")
          (Some ["markdown.block_quote"; "markdown.paragraph";
                 "markdown.block_quote"; "markdown.paragraph"]);
        mkSegment (lit "b")
          (Some ["markdown.block_quote"; "markdown.paragraph";
                 "markdown.block_quote"; "markdown.paragraph"]);
        mkSegment (lit "c")
          (Some ["markdown.block_quote"; "markdown.paragraph";
                 "markdown.block_quote"; "markdown.paragraph"])].
Proof.
  exact (@quote_document_renders _ Demo.get_style Demo.current_style
           Demo.combine Demo.render_text Demo.render_panel Demo.render_lines
           Demo.allocates
           [] [lit "a"; lit "b"; lit "c"] Demo.o20 eq_refl).
Defined.


Lemma paragraphs_are_spaced_witness :
  demo_markdown
    (Container "document" 0 (map paragraph_of [lit "a"; lit "b"])) Demo.o20
  = Ok [mkSegment (lit "a")
          (Some ["markdown.paragraph"; "markdown.paragraph"]);
        mkSegment [NEWLINE] None;
        mkSegment (lit "b")
          (Some ["markdown.paragraph"; "markdown.paragraph"])].
Proof.
  exact (@paragraphs_are_spaced _ Demo.get_style Demo.current_style
           Demo.combine Demo.render_text Demo.render_panel Demo.render_lines
           Demo.allocates
           [] [lit "a"; lit "b"] Demo.o20 eq_refl).
Defined.
